(** * Cyclic-voltammetry analysis pipeline: shallow embedding and properties

    The TypeScript sources under [src/math] (convolution, Savitzky-Golay
    kernels, smoothing, derivative, baseline fitting, integration and the
    [analyzeCVScan] orchestrator) are embedded as Rocq functions, together
    with the two summaries [App.tsx] derives from their results.

    Numbers.  A JavaScript [number] that carries a measurement is modelled
    as an exact rational ([Q]); rounding, NaN and the infinities of IEEE
    doubles are outside the model, so [isFinite] is always true and every
    statement below is a statement in exact arithmetic.  A [number] that is
    an array index or a length is a [nat] (or a [Z] where the source lets
    it go negative).  Equality of measurements is [Qeq] ([==]).

    Exceptions.  A function that can [throw] returns an [outcome]: [Ok v] for
    [return v], [Throw msg] for [throw new Error(msg)] or a TypeError. *)

From Stdlib Require Import QArith Qabs Qround Qminmax ZArith List Lia Lqa String Bool.
From stdpp Require Import base decidable gmap pretty sorting.
From Equations Require Import Equations.
Import ListNotations.

Local Open Scope Q_scope.

(* ===================================================================== *)
(** * Part I.  The embedding                                              *)
(* ===================================================================== *)

(** ** JavaScript primitives used by the sources *)

Inductive outcome (A : Type) : Type :=
| Ok (a : A)
| Throw (msg : string).
Arguments Ok {A} a.
Arguments Throw {A} msg.

Definition bind {A B} (r : outcome A) (k : A -> outcome B) : outcome B :=
  match r with
  | Ok a => k a
  | Throw msg => Throw msg
  end.

Notation "'let*' x ':=' e 'in' k" := (bind e (fun x => k))
  (at level 10, x pattern, e at level 100, k at level 200).

(** [a < b], [a > b], [a >= b] and [a <= b] on numbers, as booleans. *)
Definition Qltb (a b : Q) : bool := negb (Qle_bool b a).
Definition Qgtb (a b : Q) : bool := Qltb b a.
Definition Qgeb (a b : Q) : bool := Qle_bool b a.
Definition Qleb (a b : Q) : bool := Qle_bool a b.

(** [arr.reduce((acc, v) => acc + v, 0)]. *)
Definition sumQ (l : list Q) : Q := fold_left Qplus l 0.

(** The number of rounds of [for (let i = 0; i < bound; i++)]. *)
Definition loopCount (bound : Q) : nat := Z.to_nat (Qceiling bound).

(** [Math.floor(n * frac)] for an array length [n]. *)
Definition floorScale (n : nat) (frac : Q) : Z := Qfloor (inject_Z (Z.of_nat n) * frac).

(** [arr[i]] on a number array; the default stands for [undefined] and is
    only met where the source would read out of range. *)
Definition at_ (arr : list Q) (i : nat) : Q := nth i arr 0.

(** [Array.prototype.sort(cmp)]: a stable sort; [cmp a b <= 0] keeps [a]
    before [b]. *)
Fixpoint sortInsert {A} (cmp : A -> A -> Q) (x : A) (l : list A) : list A :=
  match l with
  | [] => [x]
  | y :: rest => if Qleb (cmp x y) 0 then x :: y :: rest else y :: sortInsert cmp x rest
  end.

Definition sortBy {A} (cmp : A -> A -> Q) (l : list A) : list A :=
  fold_right (sortInsert cmp) [] l.

(** The indices visited by [for (let i = start; i < stop; i += step)]. *)
Definition forRange (start stop step : nat) : list nat :=
  map (fun k => (start + k * step)%nat) (seq 0 ((stop - start + step - 1) / step)).

(** ** types.ts *)

Record DataPoint : Type := mkDataPoint {
  potential : Q;
  current : Q;
  time : option Q;
  appliedPotential : option Q;
  scan : option Q;
  pointIndex : option Q;
  qPlus : option Q;
  qMinus : option Q
}.

(** An object literal [{ potential, current }]: every optional field absent. *)
Definition bare (e i : Q) : DataPoint :=
  mkDataPoint e i None None None None None None.

Inductive BaselineMethod : Type := rubberband | linear | asls.

Inductive ScanDirection : Type := forward | reverse.

Record AnalysisConfig : Type := mkAnalysisConfig {
  smoothingEnabled : bool;
  smoothingWindow : Z;
  baselineMethod : BaselineMethod;
  aslsLambda : Q;
  aslsP : Q;
  rubberbandIterations : Q;
  rubberbandWindowSize : Q;
  linearAnchorFraction : Q;
  peakProminenceThreshold : Q
}.

(** ** convolution.ts *)

Module Convolution.

Inductive EdgeHandling : Type := mirror | constant | extend.

Record ConvolutionResult : Type := mkConvolutionResult {
  result : list Q;
  edgeHandling : EdgeHandling;
  warnings : list string
}.

Definition getDataValue (data : list Q) (index : Z) (edge : EdgeHandling) : Q :=
  let len := Z.of_nat (length data) in
  if ((0 <=? index) && (index <? len))%Z then at_ data (Z.to_nat index)
  else
    match edge with
    | mirror =>
        let mirroredIndex :=
          if (index <? 0)%Z then Z.min (Z.abs index) (len - 1)
          else Z.max 0 (2 * len - index - 2) in
        at_ data (Z.to_nat mirroredIndex)
    | constant | extend =>
        if (index <? 0)%Z then at_ data 0 else at_ data (Z.to_nat (len - 1))
    end.

Definition convolve (data kernel : list Q) (edge : EdgeHandling)
  : outcome ConvolutionResult :=
  if (length data =? 0)%nat then Throw "Data must be a non-empty array"
  else if (length kernel =? 0)%nat then Throw "Kernel must be a non-empty array"
  else
    let warnings :=
      if (length data <? length kernel)%nat
      then ["Kernel is larger than data array, results may be unreliable"%string]
      else [] in
    let normalizedKernel := map (fun val => val) kernel in
    let kernelSize := length kernel in
    let halfKernel := (Z.of_nat kernelSize / 2)%Z in
    let res :=
      map (fun i : nat =>
             fold_left
               (fun sum (j : nat) =>
                  let dataIndex := (Z.of_nat i - halfKernel + Z.of_nat j)%Z in
                  let dataValue := getDataValue data dataIndex edge in
                  let kernelValue := at_ normalizedKernel j in
                  sum + dataValue * kernelValue)
               (seq 0 kernelSize) 0)
          (seq 0 (length data)) in
    Ok (mkConvolutionResult res edge warnings).

End Convolution.

(** ** savitzky-golay-kernels.ts *)

Module Kernels.

Inductive KernelType : Type := smoothingKernel | derivativeKernel.

Record SGKernel : Type := mkSGKernel {
  coefficients : list Q;
  windowSize : Z;
  polynomialOrder : Z;
  type : KernelType
}.

Record SGKernelSet : Type := mkSGKernelSet {
  smoothing : SGKernel;
  derivative : SGKernel
}.

Definition ints (l : list Z) : list Q := map inject_Z l.

Definition SG_KERNELS_5 : SGKernelSet :=
  mkSGKernelSet
    (mkSGKernel (ints [-3; 12; 17; 12; -3]%Z) 5 2 smoothingKernel)
    (mkSGKernel (ints [-2; -1; 0; 1; 2]%Z) 5 2 derivativeKernel).

Definition SG_KERNELS_9 : SGKernelSet :=
  mkSGKernelSet
    (mkSGKernel (ints [-21; 14; 39; 54; 59; 54; 39; 14; -21]%Z) 9 2 smoothingKernel)
    (mkSGKernel (ints [-4; -3; -2; -1; 0; 1; 2; 3; 4]%Z) 9 2 derivativeKernel).

Definition SG_KERNELS_11 : SGKernelSet :=
  mkSGKernelSet
    (mkSGKernel (ints [-36; 9; 44; 69; 84; 89; 84; 69; 44; 9; -36]%Z) 11 2 smoothingKernel)
    (mkSGKernel (ints [-5; -4; -3; -2; -1; 0; 1; 2; 3; 4; 5]%Z) 11 2 derivativeKernel).

Definition SG_KERNELS_15 : SGKernelSet :=
  mkSGKernelSet
    (mkSGKernel
       (ints [-78; -13; 42; 87; 122; 147; 162; 167; 162; 147; 122; 87; 42; -13; -78]%Z)
       15 2 smoothingKernel)
    (mkSGKernel
       (ints [-7; -6; -5; -4; -3; -2; -1; 0; 1; 2; 3; 4; 5; 6; 7]%Z)
       15 2 derivativeKernel).

Definition SG_KERNELS_21 : SGKernelSet :=
  mkSGKernelSet
    (mkSGKernel
       (ints [-171; -76; 9; 84; 149; 204; 249; 284; 309; 324; 329; 324; 309; 284;
              249; 204; 149; 84; 9; -76; -171]%Z)
       21 2 smoothingKernel)
    (mkSGKernel
       (ints [-10; -9; -8; -7; -6; -5; -4; -3; -2; -1; 0; 1; 2; 3; 4; 5; 6; 7; 8; 9; 10]%Z)
       21 2 derivativeKernel).

(** The registry object, keyed by window size. *)
Definition SG_KERNEL_REGISTRY : gmap Z SGKernelSet :=
  list_to_map
    [ (5%Z, SG_KERNELS_5); (9%Z, SG_KERNELS_9); (11%Z, SG_KERNELS_11);
      (15%Z, SG_KERNELS_15); (21%Z, SG_KERNELS_21) ].

Definition getNormalizedSmoothingKernel (windowSize : Z) : outcome (list Q) :=
  match SG_KERNEL_REGISTRY !! windowSize with
  | None =>
      Throw (String.append "No smoothing kernel available for window size "
                           (pretty windowSize))
  | Some set =>
      let coefficients := coefficients (smoothing set) in
      let sum := fold_left (fun acc val => acc + val) coefficients 0 in
      Ok (map (fun val => val / sum) coefficients)
  end.

Definition getDerivativeKernel (windowSize : Z) : outcome (list Q) :=
  match SG_KERNEL_REGISTRY !! windowSize with
  | None =>
      Throw (String.append "No derivative kernel available for window size "
                           (pretty windowSize))
  | Some set => Ok (coefficients (derivative set))
  end.

End Kernels.

(** ** smoothing-pipeline.ts *)

Module Smoothing.

Record KernelInfo : Type := mkKernelInfo {
  windowSize : Z;
  coefficients : list Q
}.

Record SmoothingResult : Type := mkSmoothingResult {
  smoothedData : list DataPoint;
  smoothedCurrent : list Q;
  warnings : list string;
  kernelInfo : KernelInfo
}.

Section WithQualityCheck.

(** [validateSmoothingQuality] only produces advisory warning strings, from
    floating-point statistics (a standard deviation through [Math.sqrt],
    ratios that are NaN on a flat signal).  It is a parameter of the model:
    no result below depends on which warnings it returns. *)
Variable validateSmoothingQuality : list Q -> list Q -> list string.

Definition applySmoothing (data : list DataPoint) (config : AnalysisConfig)
  : outcome SmoothingResult :=
  if (length data =? 0)%nat then Throw "Data must be a non-empty array"
  else
    let warnings0 :=
      if (Z.of_nat (length data) <? smoothingWindow config)%Z
      then [String.append "Data length ("
             (String.append (pretty (length data))
             (String.append ") is smaller than smoothing window ("
             (String.append (pretty (smoothingWindow config))
                            "). Results may be unreliable.")))]
      else [] in
    let currentValues := map (fun point => current point) data in
    match
      (let* kernel := Kernels.getNormalizedSmoothingKernel (smoothingWindow config) in
       let* convolutionResult :=
         Convolution.convolve currentValues kernel Convolution.mirror in
       Ok (kernel, convolutionResult))
    with
    | Ok (kernel, convolutionResult) =>
        let smoothedCurrent := Convolution.result convolutionResult in
        let smoothedData :=
          imap (fun index point =>
                  bare (potential point)
                       (match nth_error smoothedCurrent index with
                        | Some v => v
                        | None => current point
                        end))
               data in
        Ok (mkSmoothingResult smoothedData smoothedCurrent
              (warnings0 ++ Convolution.warnings convolutionResult
                         ++ validateSmoothingQuality currentValues smoothedCurrent)
              (mkKernelInfo (smoothingWindow config) kernel))
    | Throw msg =>
        Ok (mkSmoothingResult data currentValues
              (warnings0 ++ [String.append "Smoothing failed: " msg])
              (mkKernelInfo (smoothingWindow config) []))
    end.

End WithQualityCheck.

End Smoothing.

(** ** derivative-pipeline.ts *)

Module Derivative.

Record DerivativeResult : Type := mkDerivativeResult {
  derivativeCurrent : list Q;
  derivativeData : list DataPoint;
  warnings : list string;
  kernelCoefficients : list Q
}.

Definition calculatePotentialSpacing (data : list DataPoint) : Q :=
  if (length data <? 2)%nat then 1
  else
    let spacings :=
      flat_map (fun i : nat =>
                  let spacing :=
                    Qabs (potential (nth i data (bare 0 0))
                          - potential (nth (i - 1) data (bare 0 0))) in
                  if Qgtb spacing 0 then [spacing] else [])
               (seq 1 (length data - 1)) in
    if (length spacings =? 0)%nat then 1
    else
      let sorted := sortBy (fun a b => a - b) spacings in
      let medianIndex := (length sorted / 2)%nat in
      if (length sorted mod 2 =? 0)%nat
      then (at_ sorted (medianIndex - 1) + at_ sorted medianIndex) / 2
      else at_ sorted medianIndex.

Section WithQualityCheck.

(** [validateDerivativeQuality] returns advisory warning strings computed
    from floating-point statistics; a parameter, as in [Smoothing]. *)
Variable validateDerivativeQuality : list Q -> Q -> list string.

(** The [statistics] field of the result is not read by the pipeline and is
    left out of the record. *)
Definition calculateDerivative (data : list DataPoint) (config : AnalysisConfig)
  : outcome DerivativeResult :=
  if (length data =? 0)%nat then Throw "Data must be a non-empty array"
  else
    let warnings0 :=
      if (Z.of_nat (length data) <? smoothingWindow config)%Z
      then [String.append "Data length ("
             (String.append (pretty (length data))
             (String.append ") is smaller than derivative window ("
             (String.append (pretty (smoothingWindow config))
                            "). Results may be unreliable.")))]
      else [] in
    let currentValues := map (fun point => current point) data in
    match
      (let* kernel := Kernels.getDerivativeKernel (smoothingWindow config) in
       let* convolutionResult :=
         Convolution.convolve currentValues kernel Convolution.mirror in
       Ok (kernel, convolutionResult))
    with
    | Ok (kernel, convolutionResult) =>
        let derivativeCurrent := Convolution.result convolutionResult in
        let potentialSpacing := calculatePotentialSpacing data in
        let halfWindow := (length kernel / 2)%nat in
        let norm :=
          2 * fold_left (fun norm i => norm + inject_Z (Z.of_nat (i * i)))
                        (seq 1 halfWindow) 0 in
        let scaleFactor := norm * potentialSpacing in
        let scaledDerivative :=
          map (fun val => if Qgtb scaleFactor 0 then val / scaleFactor else 0)
              derivativeCurrent in
        let derivativeData :=
          imap (fun index point =>
                  bare (potential point)
                       (match nth_error scaledDerivative index with
                        | Some v => v
                        | None => 0
                        end))
               data in
        Ok (mkDerivativeResult scaledDerivative derivativeData
              (warnings0 ++ Convolution.warnings convolutionResult
                         ++ validateDerivativeQuality scaledDerivative potentialSpacing)
              kernel)
    | Throw msg =>
        let zeroDerivative := repeat 0 (length data) in
        let zeroDerivativeData :=
          map (fun point =>
                 mkDataPoint (potential point) 0 (time point) (appliedPotential point)
                             (scan point) (pointIndex point) (qPlus point) (qMinus point))
              data in
        Ok (mkDerivativeResult zeroDerivative zeroDerivativeData
              (warnings0 ++ [String.append "Derivative calculation failed: " msg])
              [])
    end.

End WithQualityCheck.

End Derivative.

(** ** baseline-fitting.ts *)

Module Baseline.

Record RubberbandConfig : Type := mkRubberbandConfig {
  iterations : Q;
  windowSize : Q
}.

Definition createDefaultRubberbandConfig : RubberbandConfig :=
  mkRubberbandConfig 40 80.

(** [lo = Math.max(0, i - halfWin)] and [hi = Math.min(n - 1, i + halfWin)];
    subtraction on [nat] already stops at 0. *)
Definition windowLo (i halfWin : nat) : nat := Nat.max 0 (i - halfWin).
Definition windowHi (n i halfWin : nat) : nat := Nat.min (n - 1) (i + halfWin).

(** The inner scan [extremum = arr[lo]; for (j = lo + 1; j <= hi; j++) ...];
    [better v extremum] is the test that replaces the running extremum. *)
Definition windowExtremum (better : Q -> Q -> bool) (arr : list Q) (lo hi : nat) : Q :=
  fold_left (fun extremum j => if better (at_ arr j) extremum then at_ arr j else extremum)
            (seq (lo + 1) (hi - lo)) (at_ arr lo).

Definition movingExtremum (better : Q -> Q -> bool) (n halfWin : nat) (arr : list Q)
  : list Q :=
  map (fun i => windowExtremum better arr (windowLo i halfWin) (windowHi n i halfWin))
      (seq 0 n).

Definition smoothArray (arr : list Q) (halfWin : nat) : list Q :=
  let n := length arr in
  map (fun i =>
         let lo := windowLo i halfWin in
         let hi := windowHi n i halfWin in
         let sum := fold_left (fun sum j => sum + at_ arr j) (seq lo (hi - lo + 1)) 0 in
         sum / inject_Z (Z.of_nat (hi - lo + 1)))
      (seq 0 n).

(** One round of the [for (iter ...)] loop: erosion, dilation, smoothing. *)
Definition rubberbandRound (direction : ScanDirection) (n halfWin : nat)
  (envelope : list Q) : list Q :=
  let eroded :=
    movingExtremum (match direction with forward => Qltb | reverse => Qgtb end)
                   n halfWin envelope in
  let dilated :=
    movingExtremum (match direction with forward => Qgtb | reverse => Qltb end)
                   n halfWin eroded in
  smoothArray dilated halfWin.

Definition rubberbandBaseline (data : list DataPoint) (direction : ScanDirection)
  (config : RubberbandConfig) : list DataPoint :=
  if (length data <? 3)%nat then map (fun p => bare (potential p) (current p)) data
  else
    let n := length data in
    let halfWin :=
      Z.to_nat (Z.max 2 (Z.min (floorScale n 0.05) (Qfloor (windowSize config / 2)))) in
    let envelope0 := map (fun p => current p) data in
    let envelope :=
      Nat.iter (loopCount (iterations config)) (rubberbandRound direction n halfWin)
               envelope0 in
    let clamped :=
      imap (fun i p =>
              match direction with
              | forward => Qmin (at_ envelope i) (current p)
              | reverse => Qmax (at_ envelope i) (current p)
              end)
           data in
    imap (fun i p => bare (potential p) (at_ clamped i)) data.

(** [data[i]] on a sample array, where the source goes on to read a field:
    out of range is a TypeError. *)
Definition readPoint (data : list DataPoint) (i : Z) : outcome DataPoint :=
  if (i <? 0)%Z then Throw "Cannot read properties of undefined"
  else match nth_error data (Z.to_nat i) with
       | Some p => Ok p
       | None => Throw "Cannot read properties of undefined"
       end.

Fixpoint readPoints (data : list DataPoint) (indices : list Z) : outcome (list DataPoint) :=
  match indices with
  | [] => Ok []
  | i :: rest =>
      let* p := readPoint data i in
      let* ps := readPoints data rest in
      Ok (p :: ps)
  end.

Definition leastSquares (points : list (Q * Q)) : Q * Q :=
  let n := inject_Z (Z.of_nat (length points)) in
  let '(sumX, sumY, sumXY, sumX2) :=
    fold_left (fun '(sumX, sumY, sumXY, sumX2) '(x, y) =>
                 (sumX + x, sumY + y, sumXY + x * y, sumX2 + x * x))
              points (0, 0, 0, 0) in
  let denom := n * sumX2 - sumX * sumX in
  if Qltb (Qabs denom) 1e-15 then (0, sumY / n)
  else
    let slope := (n * sumXY - sumX * sumY) / denom in
    let intercept := (sumY - slope * sumX) / n in
    (slope, intercept).

Definition linearBaseline (data : list DataPoint) (anchorFraction : Q)
  : outcome (list DataPoint) :=
  if (length data <? 3)%nat then Ok (map (fun p => bare (potential p) (current p)) data)
  else
    let n := length data in
    let anchorCount := Z.max 2 (floorScale n anchorFraction) in
    let* head := readPoints data (map Z.of_nat (seq 0 (Z.to_nat anchorCount))) in
    let* tail :=
      readPoints data
        (map (fun k => (Z.of_nat n - anchorCount + Z.of_nat k)%Z)
             (seq 0 (Z.to_nat anchorCount))) in
    let anchors := map (fun p => (potential p, current p)) (head ++ tail) in
    let '(slope, intercept) := leastSquares anchors in
    Ok (map (fun p => bare (potential p) (slope * potential p + intercept)) data).

Record AslsConfig : Type := mkAslsConfig {
  lambda : Q;
  p : Q;
  maxIterations : Q;
  tolerance : Q
}.

Definition createDefaultAslsConfig : AslsConfig :=
  mkAslsConfig 1e6 0.01 20 1e-6.

(** The three bands of [A = W + lambda D2'D2] as [solvePentadiagonal] first
    fills them: [a] (length n), [e] (n - 1 entries), [f] (n - 2 entries). *)
Definition pentadiagonalBands (w : list Q) (lambda : Q) (n : nat)
  : list Q * list Q * list Q :=
  let a :=
    map (fun i =>
           let dtd :=
             if ((i =? 0) || (i =? n - 1))%nat then 1
             else if ((i =? 1) || (i =? n - 2))%nat then 5
             else 6 in
           at_ w i + lambda * dtd)
        (seq 0 n) in
  let e :=
    map (fun i => if ((i =? 0) || (i =? n - 2))%nat then lambda * (-2) else lambda * (-4))
        (seq 0 (n - 1)) in
  let f := map (fun _ => lambda) (seq 0 (n - 2)) in
  (a, e, f).

Section WithSqrt.

(** [Math.sqrt] has no exact rational counterpart; the solver takes it as a
    parameter. *)
Variable Math_sqrt : Q -> Q.

(** Column [j] of the in-place banded Cholesky factorisation. *)
Definition choleskyColumn (n : nat) (bands : list Q * list Q * list Q) (j : nat)
  : list Q * list Q * list Q :=
  let '(a, e, f) := bands in
  let a := if (1 <=? j)%nat then <[j := at_ a j - at_ e (j - 1) * at_ e (j - 1)]> a else a in
  let a := if (2 <=? j)%nat then <[j := at_ a j - at_ f (j - 2) * at_ f (j - 2)]> a else a in
  let a := <[j := Math_sqrt (Qmax (at_ a j) 1e-30)]> a in
  let e :=
    if (j + 1 <? n)%nat then
      let e := if (1 <=? j)%nat
               then <[j := at_ e j - at_ e (j - 1) * at_ f (j - 1)]> e else e in
      <[j := at_ e j / at_ a j]> e
    else e in
  let f := if (j + 2 <? n)%nat then <[j := at_ f j / at_ a j]> f else f in
  (a, e, f).

Definition solvePentadiagonal (y w : list Q) (lambda : Q) (n : nat) : list Q :=
  let '(a, e, f) :=
    fold_left (choleskyColumn n) (seq 0 n) (pentadiagonalBands w lambda n) in
  let g :=
    fold_left (fun g i =>
                 let val := at_ w i * at_ y i in
                 let val := if (1 <=? i)%nat then val - at_ e (i - 1) * at_ g (i - 1) else val in
                 let val := if (2 <=? i)%nat then val - at_ f (i - 2) * at_ g (i - 2) else val in
                 <[i := val / at_ a i]> g)
              (seq 0 n) (replicate n 0) in
  fold_left (fun z i =>
               let val := at_ g i in
               let val := if (i + 1 <? n)%nat then val - at_ e i * at_ z (i + 1) else val in
               let val := if (i + 2 <? n)%nat then val - at_ f i * at_ z (i + 2) else val in
               <[i := val / at_ a i]> z)
            (rev (seq 0 n)) (replicate n 0).

(** The [for (iter ...)] loop of [aslsBaseline], [rounds] rounds left. *)
Fixpoint aslsLoop (y : list Q) (lambda pAbove pBelow tolerance : Q) (n rounds : nat)
  (w z : list Q) : list Q :=
  match rounds with
  | O => z
  | S rounds' =>
      let z := solvePentadiagonal y w lambda n in
      let newW := map (fun i => if Qgtb (at_ y i) (at_ z i) then pAbove else pBelow)
                      (seq 0 n) in
      let maxChange :=
        fold_left (fun maxChange i => Qmax maxChange (Qabs (at_ newW i - at_ w i)))
                  (seq 0 n) 0 in
      if Qltb maxChange tolerance then z
      else aslsLoop y lambda pAbove pBelow tolerance n rounds' newW z
  end.

Definition aslsBaseline (data : list DataPoint) (direction : ScanDirection)
  (config : AslsConfig) : list DataPoint :=
  let n := length data in
  if (n <? 5)%nat then map (fun p => bare (potential p) (current p)) data
  else
    let y := map (fun p => current p) data in
    let pAbove := match direction with forward => p config | reverse => 1 - p config end in
    let pBelow := 1 - pAbove in
    let w := replicate n 1 in
    let z := aslsLoop y (lambda config) pAbove pBelow (tolerance config) n
                      (loopCount (maxIterations config)) w y in
    imap (fun i pt => bare (potential pt) (at_ z i)) data.

Definition computeBaseline (data : list DataPoint) (direction : ScanDirection)
  (config : AnalysisConfig) : outcome (list DataPoint) :=
  match baselineMethod config with
  | linear => linearBaseline data (linearAnchorFraction config)
  | asls =>
      Ok (aslsBaseline data direction
            (mkAslsConfig (aslsLambda config) (aslsP config) 20 1e-6))
  | rubberband =>
      Ok (rubberbandBaseline data direction
            (mkRubberbandConfig (rubberbandIterations config)
                                (rubberbandWindowSize config)))
  end.

End WithSqrt.

End Baseline.

(** ** integration.ts *)

Module Integration.

Record IntegrationResult : Type := mkIntegrationResult {
  area : Q;
  error : option Q
}.

Record DataPoint2D : Type := mkDataPoint2D {
  x : Q;
  y : Q
}.

(** [points[i]]; every read below is in range. *)
Definition pt (points : list DataPoint2D) (i : nat) : DataPoint2D :=
  nth i points (mkDataPoint2D 0 0).

(** The summation loop of [trapz]. *)
Definition trapzLoop (points : list DataPoint2D) : Q :=
  fold_left (fun area i =>
               let dx := x (pt points i) - x (pt points (i - 1)) in
               area + dx * (y (pt points (i - 1)) + y (pt points i)) / 2)
            (seq 1 (length points - 1)) 0.

(** [coarsePoints] of [estimateIntegrationError]: the points at 0, 2, 4, ... *)
Definition everyOther (points : list DataPoint2D) : list DataPoint2D :=
  map (fun i => pt points i) (forRange 0 (length points) 2).

Lemma everyOther_length (points : list DataPoint2D) :
  length (everyOther points) = ((length points + 1) / 2)%nat.
Proof.
  unfold everyOther, forRange.
  rewrite !length_map, length_seq. f_equal. lia.
Qed.

(** [trapz] calls [estimateIntegrationError], which calls [trapz] on the
    coarse grid: the recursion is on the number of points.  The body of
    [estimateIntegrationError] is written out here; the source's two
    functions are recovered as [estimateIntegrationError] and [trapz_unfold]
    below. *)
Equations? trapz (points : list DataPoint2D) : IntegrationResult
  by wf (length points) lt :=
trapz points :=
  if (length points <? 2)%nat then mkIntegrationResult 0 None
  else
    let total := trapzLoop points in
    let error :=
      match le_lt_dec 4 (length points) with
      | left _ => Some (Qabs (area (trapz (everyOther points)) - total) / 3)
      | right _ => None
      end in
    mkIntegrationResult total error.
Proof.
  rewrite everyOther_length. apply Nat.Div0.div_lt_upper_bound. lia.
Qed.

Definition estimateIntegrationError (points : list DataPoint2D) (fullArea : Q) : Q :=
  if (length points <? 4)%nat then 0
  else
    let coarsePoints := everyOther points in
    let coarseArea := area (trapz coarsePoints) in
    Qabs (coarseArea - fullArea) / 3.

Definition simpsons (points : list DataPoint2D) : IntegrationResult :=
  let n := length points in
  if ((n <? 3) || (n mod 2 =? 0))%nat then trapz points
  else
    let total :=
      fold_left (fun area i =>
                   let h := x (pt points (i + 1)) - x (pt points i) in
                   area + (h / 3) * (y (pt points i) + 4 * y (pt points (i + 1))
                                     + y (pt points (i + 2))))
                (forRange 0 (n - 2) 2) 0 in
    mkIntegrationResult total None.

End Integration.

(** ** cv-analysis.ts *)

Module CVAnalysis.

Inductive ChargeUnit : Type := unit_C | unit_VA.

Inductive PeakType : Type := oxidation | reduction.

Record CVPeakResult : Type := mkCVPeakResult {
  peak_index : nat;
  peak_potential : Q;
  peak_current : Q;
  rawCurrent : Q;
  height : Q;
  area : Q;
  chargeUnit : ChargeUnit;
  startIndex : nat;
  endIndex : nat;
  startPotential : Q;
  endPotential : Q;
  peak_type : PeakType
}.

Record CVScanResult : Type := mkCVScanResult {
  smoothed : list DataPoint;
  derivative : list Q;
  baseline : list DataPoint;
  peaks : list CVPeakResult;
  warnings : list string
}.

(** A peak candidate [{ index, magnitude, prominence }]. *)
Record Candidate : Type := mkCandidate {
  index : nat;
  magnitude : Q;
  prominence : Q
}.

(** [baseline[i]?.current ?? 0]. *)
Definition baselineAt (baseline : list DataPoint) (i : nat) : Q :=
  match nth_error baseline i with
  | Some b => current b
  | None => 0
  end.

(** One outward walk of [computeProminence] over the indices in visiting
    order, stopping after the first value beyond the peak value. *)
Fixpoint valleyWalk (corrected : list Q) (peakVal : Q) (isMax : bool)
  (indices : list nat) (valley : Q) : Q :=
  match indices with
  | [] => valley
  | i :: rest =>
      let valley :=
        if isMax then Qmin valley (at_ corrected i) else Qmax valley (at_ corrected i) in
      if (if isMax then Qgtb (at_ corrected i) peakVal else Qltb (at_ corrected i) peakVal)
      then valley
      else valleyWalk corrected peakVal isMax rest valley
  end.

Definition computeProminence (corrected : list Q) (peakIdx : nat) (isMax : bool) : Q :=
  let peakVal := at_ corrected peakIdx in
  let leftValley := valleyWalk corrected peakVal isMax (rev (seq 0 peakIdx)) peakVal in
  let rightValley :=
    valleyWalk corrected peakVal isMax
               (seq (peakIdx + 1) (length corrected - (peakIdx + 1))) peakVal in
  if isMax then peakVal - Qmax leftValley rightValley
  else Qmin leftValley rightValley - peakVal.

(** The inner [for (const other of peaks)] loop of [mergePeaks]. *)
Definition absorb (peak : Candidate) (minSeparation : Q)
  (state : gset nat * Candidate) (other : Candidate) : gset nat * Candidate :=
  let '(used, best) := state in
  if bool_decide (index other = index peak) || bool_decide (index other ∈ used)
  then (used, best)
  else if Qltb (inject_Z (Z.abs (Z.of_nat (index other) - Z.of_nat (index peak))))
               minSeparation
  then
    let used := used ∪ {[ index other ]} in
    if Qgtb (prominence other) (prominence best)
    then (used ∪ {[ index best ]}, other)
    else (used, best)
  else (used, best).

(** The outer [for (const peak of peaks)] loop of [mergePeaks]. *)
Definition mergeStep (peaks : list Candidate) (minSeparation : Q)
  (state : list Candidate * gset nat) (peak : Candidate) : list Candidate * gset nat :=
  let '(result, used) := state in
  if bool_decide (index peak ∈ used) then (result, used)
  else
    let '(used, best) := fold_left (absorb peak minSeparation) peaks (used, peak) in
    (result ++ [best], used ∪ {[ index best ]}).

Definition mergePeaks (peaks : list Candidate) (minSeparation : Q) : list Candidate :=
  if (length peaks <=? 1)%nat then peaks
  else fst (fold_left (mergeStep peaks minSeparation) peaks ([], ∅)).

(** One outward walk of [findPeakBoundaries]: the first index at which the
    corrected signal is back at (or across) zero, else the last one visited. *)
Fixpoint boundaryWalk (corrected : list Q) (isMax : bool) (indices : list nat)
  (bound : nat) : nat :=
  match indices with
  | [] => bound
  | i :: rest =>
      if (if isMax then Qleb (at_ corrected i) 0 else Qgeb (at_ corrected i) 0)
      then i
      else boundaryWalk corrected isMax rest i
  end.

Definition findPeakBoundaries (corrected : list Q) (peakIdx : nat) (isMax : bool)
  : nat * nat :=
  let n := length corrected in
  let startIndex := boundaryWalk corrected isMax (rev (seq 0 peakIdx)) peakIdx in
  let endIndex :=
    boundaryWalk corrected isMax (seq (peakIdx + 1) (n - (peakIdx + 1))) peakIdx in
  (startIndex, endIndex).

Definition buildEndpointBaseline (data : list DataPoint) : list DataPoint :=
  if (length data <? 2)%nat then map (fun p => bare (potential p) 0) data
  else
    let first := nth 0 data (bare 0 0) in
    let last := nth (length data - 1) data (bare 0 0) in
    let potentialRange := potential last - potential first in
    if Qltb (Qabs potentialRange) 1e-10 then
      let avg := (current first + current last) / 2 in
      map (fun p => bare (potential p) avg) data
    else
      let slope := (current last - current first) / potentialRange in
      let intercept := current first - slope * potential first in
      map (fun p => bare (potential p) (slope * potential p + intercept)) data.

Definition interpolatePeakPotential (smoothed : list DataPoint) (corrected : list Q)
  (peakIdx : nat) : outcome Q :=
  if ((peakIdx <=? 0) || (length corrected - 1 <=? peakIdx))%nat then
    let* c := Baseline.readPoint smoothed (Z.of_nat peakIdx) in
    Ok (potential c)
  else
    let yL := at_ corrected (peakIdx - 1) in
    let yC := at_ corrected peakIdx in
    let yR := at_ corrected (peakIdx + 1) in
    let denom := 2 * (2 * yC - yL - yR) in
    if Qltb (Qabs denom) 1e-30 then
      let* c := Baseline.readPoint smoothed (Z.of_nat peakIdx) in
      Ok (potential c)
    else
      let offset := (yL - yR) / denom in
      let* l := Baseline.readPoint smoothed (Z.of_nat peakIdx - 1) in
      let* c := Baseline.readPoint smoothed (Z.of_nat peakIdx) in
      let* r := Baseline.readPoint smoothed (Z.of_nat peakIdx + 1) in
      let eL := potential l in
      let eC := potential c in
      let eR := potential r in
      if Qgeb offset 0 then Ok (eC + offset * (eR - eC))
      else Ok (eC + offset * (eC - eL)).

(** The point pushed for index [i] by [buildIntegrationPoints]. *)
Definition integrationPoint (baseline : list DataPoint) (useTime : bool)
  (i : nat) (d : DataPoint) : Integration.DataPoint2D :=
  let y := current d - baselineAt baseline i in
  let x :=
    match useTime, time d with
    | true, Some t => t
    | _, _ => potential d
    end in
  Integration.mkDataPoint2D x y.

Definition buildIntegrationPoints (data baseline : list DataPoint)
  (startIndex endIndex : nat) (useTime : bool) : list Integration.DataPoint2D :=
  flat_map (fun i =>
              match nth_error data i with
              | Some d => [integrationPoint baseline useTime i d]
              | None => []
              end)
           (seq startIndex (Nat.min (endIndex + 1) (length data) - startIndex)).

Definition integratePeakArea (data baseline : list DataPoint)
  (startIndex endIndex : nat) (useTime : bool) : Q :=
  let pts := buildIntegrationPoints data baseline startIndex endIndex useTime in
  if (length pts <? 2)%nat then 0
  else
    let result :=
      if ((3 <=? length pts) && (length pts mod 2 =? 1))%nat
      then Integration.simpsons pts
      else Integration.trapz pts in
    Qabs (Integration.area result).

(** [smoothed[0]?.time !== undefined]. *)
Definition hasTime (smoothed : list DataPoint) : bool :=
  match nth_error smoothed 0 with
  | Some d => match time d with Some _ => true | None => false end
  | None => false
  end.

(** The body of the [for (const peak of merged)] loop of [findCVPeaks]. *)
Definition peakRecord (smoothed baseline : list DataPoint) (corrected : list Q)
  (isOxidation : bool) (peak : Candidate) : outcome CVPeakResult :=
  let '(startIndex, endIndex) := findPeakBoundaries corrected (index peak) isOxidation in
  let height := Qabs (at_ corrected (index peak)) in
  let* precisePotential := interpolatePeakPotential smoothed corrected (index peak) in
  let hasTime := hasTime smoothed in
  let area := integratePeakArea smoothed baseline startIndex endIndex hasTime in
  let chargeUnit := if hasTime then unit_C else unit_VA in
  let* apex := Baseline.readPoint smoothed (Z.of_nat (index peak)) in
  let* first := Baseline.readPoint smoothed (Z.of_nat startIndex) in
  let* last := Baseline.readPoint smoothed (Z.of_nat endIndex) in
  Ok (mkCVPeakResult (index peak) precisePotential (current apex) (current apex)
        height area chargeUnit startIndex endIndex (potential first) (potential last)
        (if isOxidation then oxidation else reduction)).

Fixpoint peakRecords (smoothed baseline : list DataPoint) (corrected : list Q)
  (isOxidation : bool) (merged : list Candidate) : outcome (list CVPeakResult) :=
  match merged with
  | [] => Ok []
  | peak :: rest =>
      let* r := peakRecord smoothed baseline corrected isOxidation peak in
      let* rs := peakRecords smoothed baseline corrected isOxidation rest in
      Ok (r :: rs)
  end.

Definition findCVPeaks (smoothed baseline : list DataPoint) (corrected : list Q)
  (direction : ScanDirection) (prominenceThreshold : Q) : outcome (list CVPeakResult) :=
  let n := length corrected in
  if (n <? 5)%nat then Ok []
  else
    let isOxidation := match direction with forward => true | reverse => false end in
    let candidates :=
      flat_map (fun i =>
                  if isOxidation then
                    if Qgtb (at_ corrected i) (at_ corrected (i - 1))
                       && Qgtb (at_ corrected i) (at_ corrected (i + 1))
                       && Qgtb (at_ corrected i) 0
                    then [(i, at_ corrected i)] else []
                  else
                    if Qltb (at_ corrected i) (at_ corrected (i - 1))
                       && Qltb (at_ corrected i) (at_ corrected (i + 1))
                       && Qltb (at_ corrected i) 0
                    then [(i, Qabs (at_ corrected i))] else [])
               (seq 1 (n - 2)) in
    if (length candidates =? 0)%nat then Ok []
    else
      let maxMag :=
        fold_left Qmax (map snd (tl candidates)) (snd (hd (O, 0) candidates)) in
      let minProminence := maxMag * prominenceThreshold in
      let withProminence :=
        sortBy (fun a b => prominence b - prominence a)
          (List.filter (fun c => Qgeb (prominence c) minProminence)
             (map (fun c => mkCandidate (fst c) (snd c)
                              (computeProminence corrected (fst c) isOxidation))
                  candidates)) in
      let minSeparation := inject_Z (Z.max 5 (floorScale n 0.02)) in
      let merged := mergePeaks withProminence minSeparation in
      let* peaks := peakRecords smoothed baseline corrected isOxidation merged in
      Ok (sortBy (fun a b => if isOxidation
                             then peak_potential a - peak_potential b
                             else peak_potential b - peak_potential a)
                 peaks).

Section WithRuntime.

Variable Math_sqrt : Q -> Q.
Variable validateSmoothingQuality : list Q -> list Q -> list string.
Variable validateDerivativeQuality : list Q -> Q -> list string.

Definition analyzeCVScan (scanData : list DataPoint) (config : AnalysisConfig)
  (scanDirection : ScanDirection) : outcome CVScanResult :=
  if (length scanData =? 0)%nat then Ok (mkCVScanResult [] [] [] [] [])
  else
    let '(smoothed, warnings1) :=
      if smoothingEnabled config then
        match Smoothing.applySmoothing validateSmoothingQuality scanData config with
        | Ok smoothingResult =>
            (Smoothing.smoothedData smoothingResult, Smoothing.warnings smoothingResult)
        | Throw _ => (scanData, ["Smoothing failed, using raw data"%string])
        end
      else (scanData, []) in
    let '(derivative, warnings2) :=
      match Derivative.calculateDerivative validateDerivativeQuality smoothed config with
      | Ok derivativeResult =>
          (Derivative.derivativeCurrent derivativeResult,
           Derivative.warnings derivativeResult)
      | Throw _ => (repeat 0 (length smoothed), ["Derivative calculation failed"%string])
      end in
    let '(baseline, warnings3) :=
      match Baseline.computeBaseline Math_sqrt smoothed scanDirection config with
      | Ok baseline => (baseline, [])
      | Throw _ =>
          (buildEndpointBaseline smoothed,
           ["Baseline fitting failed, using endpoint interpolation"%string])
      end in
    let corrected := imap (fun i p => current p - baselineAt baseline i) smoothed in
    let* peaks :=
      findCVPeaks smoothed baseline corrected scanDirection
                  (peakProminenceThreshold config) in
    Ok (mkCVScanResult smoothed derivative baseline peaks
          (warnings1 ++ warnings2 ++ warnings3)).

End WithRuntime.

End CVAnalysis.

(** ** App.tsx *)

Module App.

Record CVPairParameters : Type := mkCVPairParameters {
  deltaEp : Q;
  halfWavePotential : Q;
  peakCurrentRatio : Q
}.



(** [cvPairParams], from the peaks of the forward and of the reverse scan. *)
Definition cvPairParams (forwardPeaks reversePeaks : list CVAnalysis.CVPeakResult)
  : option CVPairParameters :=
  if ((length forwardPeaks =? 0) || (length reversePeaks =? 0))%nat then None
  else
    match nth_error forwardPeaks 0, nth_error reversePeaks 0 with
    | Some fwdPeak, Some revPeak =>
        let epa := CVAnalysis.peak_potential fwdPeak in
        let epc := CVAnalysis.peak_potential revPeak in
        let ipa := CVAnalysis.height fwdPeak in
        let ipc := CVAnalysis.height revPeak in
        Some (mkCVPairParameters (epa - epc) ((epa + epc) / 2)
                (if Qgtb ipc 0 then ipa / ipc else 0))
    | _, _ => None
    end.

End App.

(* ===================================================================== *)
(** * Part II.  Vocabulary of the properties                              *)
(* ===================================================================== *)

(** ** Kernel table *)

(** The window sizes that have an entry in the registry. *)
Definition supportedWindows : list Z := [5; 9; 11; 15; 21]%Z.

(** A kernel is antisymmetric about its centre [m = floor(len / 2)]: the
    centre coefficient is 0 and the coefficient at offset [-k] is minus the
    one at offset [+k]. *)
Definition antisymmetric (kernel : list Q) : Prop :=
  let m := (length kernel / 2)%nat in
  at_ kernel m == 0
  /\ forall k : nat, (k <= m)%nat -> at_ kernel (m - k) == - at_ kernel (m + k).

(** ** Integration *)

(** The test grid of the integration round trip: [n] points of [y = 1] at
    uniform spacing over [0, 10]. *)
Definition unitGrid (n : nat) : list Integration.DataPoint2D :=
  map (fun i => Integration.mkDataPoint2D (10 * inject_Z (Z.of_nat i) / inject_Z (Z.of_nat (n - 1))) 1)
      (seq 0 n).

(** ** The ASLS penalty matrix *)

(** Row [k] of the discrete second-difference operator [D2]
    ((n - 2) rows, n columns): [1, -2, 1] starting at column [k]. *)
Definition D2 (k j : nat) : Z :=
  if (j =? k)%nat then 1
  else if (j =? k + 1)%nat then -2
  else if (j =? k + 2)%nat then 1
  else 0.

(** Entry (i, j) of [D2' D2] for [n] samples. *)
Definition D2tD2 (n i j : nat) : Z :=
  fold_left (fun s k => (s + D2 k i * D2 k j)%Z) (seq 0 (n - 2)) 0%Z.

(** Entry (i, j) of the symmetric matrix stored as the three bands
    [a] (diagonal), [e] (first off-diagonal), [f] (second off-diagonal). *)
Definition bandEntry (a e f : list Q) (i j : nat) : Q :=
  if (i =? j)%nat then at_ a i
  else if (i =? j + 1)%nat then at_ e j
  else if (j =? i + 1)%nat then at_ e i
  else if (i =? j + 2)%nat then at_ f j
  else if (j =? i + 2)%nat then at_ f i
  else 0.

(** The band patterns of [D2' D2] named in the source comment. *)
Definition diagPattern (n i : nat) : Z :=
  if ((i =? 0) || (i =? n - 1))%nat then 1
  else if ((i =? 1) || (i =? n - 2))%nat then 5 else 6.

Definition sub1Pattern (n i : nat) : Z :=
  if ((i =? 0) || (i =? n - 2))%nat then -2 else -4.

(** ** Scans used as concrete inputs *)

(** A forward scan in which the third sample has no time value (its time
    cell did not parse), analysed without smoothing. *)
Definition sample (e i : Q) (t : option Q) : DataPoint :=
  mkDataPoint e i t None None None None None.

Definition partialTimeScan : list DataPoint :=
  [ sample 0 0 (Some 10); sample 0.1 1 (Some 11); sample 0.2 3 None;
    sample 0.3 1 (Some 13); sample 0.4 0 (Some 14) ].

Definition rawLinearConfig : AnalysisConfig :=
  mkAnalysisConfig false 5 linear 1e6 0.01 40 80 0.1 0.05.

Definition everyHasTime (data : list DataPoint) : bool :=
  forallb (fun d => match time d with Some _ => true | None => false end) data.

(** A scan in which every sample carries a time value, analysed with the
    default smoothing window. *)
Definition timedScan : list DataPoint :=
  [ sample 0 0 (Some 10); sample 1 0 (Some 11); sample 2 1 (Some 12);
    sample 3 4 (Some 13); sample 4 1 (Some 14); sample 5 0 (Some 15);
    sample 6 0 (Some 16) ].

Definition smoothedLinearConfig : AnalysisConfig :=
  mkAnalysisConfig true 5 linear 1e6 0.01 40 80 0.1 0.05.

(** ** Peak merging *)

(** Candidates in the order [findCVPeaks] hands them to [mergePeaks]:
    by prominence, highest first. *)
Definition byProminence (a b : CVAnalysis.Candidate) : Prop :=
  CVAnalysis.prominence b <= CVAnalysis.prominence a.

(** The proximity test of the inner loop. *)
Definition near (minSeparation : Q) (a b : CVAnalysis.Candidate) : bool :=
  Qltb (inject_Z (Z.abs (Z.of_nat (CVAnalysis.index a) - Z.of_nat (CVAnalysis.index b))))
       minSeparation.

(** A merged set: distinct apex indices, no two of them within
    [minSeparation]. *)
Definition separated (minSeparation : Q) (l : list CVAnalysis.Candidate) : Prop :=
  NoDup (CVAnalysis.index <$> l)
  /\ forall a b, a ∈ l -> b ∈ l -> CVAnalysis.index a <> CVAnalysis.index b ->
                 near minSeparation a b = false.

(** A configuration whose window size has no kernel. *)
Definition unsupportedWindowConfig : AnalysisConfig :=
  mkAnalysisConfig true 7 rubberband 1e6 0.01 2 80 0.1 0.05.






(** ** Peaks *)

(** [isOxidation] of [findCVPeaks]. *)
Definition isForward (direction : ScanDirection) : bool :=
  match direction with forward => true | reverse => false end.

(** The corrected signal is on the peak's side of zero at [i]. *)
Definition insidePeak (corrected : list Q) (isMax : bool) (i : nat) : Prop :=
  if isMax then 0 < at_ corrected i else at_ corrected i < 0.

(** The corrected signal is back at the baseline, or across it, at [i]. *)
Definition backAtBaseline (corrected : list Q) (isMax : bool) (i : nat) : Prop :=
  if isMax then at_ corrected i <= 0 else 0 <= at_ corrected i.

(** A strict local extremum of the peak's sign at [i]. *)
Definition strictExtremum (corrected : list Q) (isMax : bool) (i : nat) : Prop :=
  if isMax then
    at_ corrected (i - 1) < at_ corrected i /\ at_ corrected (i + 1) < at_ corrected i
    /\ 0 < at_ corrected i
  else
    at_ corrected i < at_ corrected (i - 1) /\ at_ corrected i < at_ corrected (i + 1)
    /\ at_ corrected i < 0.

(** How far the signal at [i] stands out from its nearer neighbours. *)
Definition riseOverNeighbours (corrected : list Q) (isMax : bool) (i : nat) : Q :=
  if isMax then at_ corrected i - Qmax (at_ corrected (i - 1)) (at_ corrected (i + 1))
  else Qmin (at_ corrected (i - 1)) (at_ corrected (i + 1)) - at_ corrected i.

(** Peaks in the order [findCVPeaks] reports them. *)
Definition byPotential (direction : ScanDirection) (a b : CVAnalysis.CVPeakResult) : Prop :=
  if isForward direction
  then CVAnalysis.peak_potential a <= CVAnalysis.peak_potential b
  else CVAnalysis.peak_potential b <= CVAnalysis.peak_potential a.

(** A scan with two anodic peaks, at indices 2 and 9, over a zero baseline. *)
Definition twoPeakScan : list DataPoint :=
  [ sample 0 0 None; sample 1 1 None; sample 2 4 None; sample 3 1 None;
    sample 4 0 None; sample 5 0 None; sample 6 0 None; sample 7 0 None;
    sample 8 1 None; sample 9 6 None; sample 10 1 None; sample 11 0 None;
    sample 12 0 None ].

Definition zeroBaseline (data : list DataPoint) : list DataPoint :=
  map (fun p => bare (potential p) 0) data.

(** ** Integrands *)







(** A reverse scan with one cathodic peak, at index 4, and a configuration
    without smoothing whose linear baseline is fitted to the two samples at
    each end. *)
Definition returnScan : list DataPoint :=
  [ sample 12 0 None; sample 11 0 None; sample 10 0 None; sample 9 (-1) None;
    sample 8 (-5) None; sample 7 (-1) None; sample 6 0 None; sample 5 0 None;
    sample 4 0 None ].

Definition endpointConfig : AnalysisConfig :=
  mkAnalysisConfig false 5 linear 1e6 0.01 2 80 0.1 0.05.


(* ===================================================================== *)
(** * Part III.  Properties                                                *)
(* ===================================================================== *)

(** ** Sums and array reads *)

Section Sums.

Lemma sum_from (l : list Q) (acc : Q) :
  fold_left Qplus l acc == acc + sumQ l.
Proof.
  unfold sumQ. revert acc.
  induction l as [|v l IH]; intros acc; simpl.
  - ring.
  - rewrite IH, (IH (0 + v)). ring.
Qed.

Lemma fold_seq_compat (F G : Q -> nat -> Q) (start len : nat) (acc acc' : Q) :
  acc == acc' ->
  (forall s s' j, s == s' -> (start <= j < start + len)%nat -> F s j == G s' j) ->
  fold_left F (seq start len) acc == fold_left G (seq start len) acc'.
Proof.
  revert start acc acc'.
  induction len as [|len IH]; intros start acc acc' Hacc Hstep; simpl.
  - exact Hacc.
  - apply IH.
    + apply Hstep; [exact Hacc | lia].
    + intros s s' j Hs Hj. apply Hstep; [exact Hs | lia].
Qed.

Lemma at_app_r (pre l : list Q) (j : nat) :
  at_ (pre ++ l) (length pre + j) = at_ l j.
Proof.
  unfold at_. rewrite app_nth2 by lia. f_equal. lia.
Qed.

Lemma weighted_sum_from (c : Q) (kernel pre : list Q) (acc : Q) :
  fold_left (fun sum j => sum + c * at_ (pre ++ kernel) j)
            (seq (length pre) (length kernel)) acc
  == acc + c * sumQ kernel.
Proof.
  revert pre acc.
  induction kernel as [|k kernel IH]; intros pre acc; simpl.
  - unfold sumQ. simpl. ring.
  - replace (pre ++ k :: kernel) with ((pre ++ [k]) ++ kernel)
      by (rewrite <- app_assoc; reflexivity).
    replace (S (length pre)) with (length (pre ++ [k]))
      by (rewrite length_app; simpl; lia).
    rewrite IH.
    rewrite <- app_assoc. simpl.
    replace (length pre) with (length pre + 0)%nat at 1 by lia.
    rewrite at_app_r. unfold at_ at 1. simpl.
    unfold sumQ at 2. simpl. rewrite (sum_from kernel (0 + k)). ring.
Qed.

Lemma at_in_range (P : Q -> Prop) (data : list Q) (i : nat) :
  Forall P data -> (i < length data)%nat -> P (at_ data i).
Proof.
  intros HP Hi. unfold at_.
  rewrite List.Forall_forall in HP. apply HP. apply nth_In. exact Hi.
Qed.

End Sums.

(** ** Convolution Engine *)

Section ConvolutionProperties.

Import Convolution.

Lemma getDataValue_in_range (P : Q -> Prop) (data : list Q) (index : Z)
  (edge : EdgeHandling) :
  data <> [] -> Forall P data -> P (getDataValue data index edge).
Proof.
  intros Hne HP.
  assert (Hlen : (0 < length data)%nat) by (destruct data; [congruence | simpl; lia]).
  unfold getDataValue.
  destruct ((0 <=? index)%Z && (index <? Z.of_nat (length data))%Z) eqn:Hin.
  - apply andb_prop in Hin as [H0 H1].
    apply at_in_range; [exact HP | lia].
  - destruct edge.
    + apply at_in_range; [exact HP |].
      destruct (index <? 0)%Z eqn:Hneg; lia.
    + destruct (index <? 0)%Z; apply at_in_range; try exact HP; lia.
    + destruct (index <? 0)%Z; apply at_in_range; try exact HP; lia.
Qed.

(** C6.  A constant input array convolved with a kernel whose coefficients
    sum to 1 gives the same constant at every position, under each of the
    three edge modes; the call does not throw and the output is aligned with
    the input. *)
Theorem convolve_constant_input (data kernel : list Q) (edge : EdgeHandling) (c : Q)
  (Hdata : data <> [])
  (Hconst : Forall (fun v => v == c) data)
  (Hkernel : sumQ kernel == 1) :
  exists r,
    convolve data kernel edge = Ok r
    /\ length (result r) = length data
    /\ Forall (fun v => v == c) (result r).
Proof.
  assert (Hk : kernel <> []).
  { intros ->. unfold sumQ in Hkernel. simpl in Hkernel. discriminate Hkernel. }
  unfold convolve.
  destruct (length data =? 0)%nat eqn:Hd.
  { apply Nat.eqb_eq in Hd. destruct data; [congruence | discriminate]. }
  destruct (length kernel =? 0)%nat eqn:Hkl.
  { apply Nat.eqb_eq in Hkl. destruct kernel; [congruence | discriminate]. }
  eexists. split; [reflexivity |]. simpl. split.
  - rewrite length_map, length_seq. reflexivity.
  - rewrite List.Forall_forall. intros v Hv.
    apply in_map_iff in Hv as [i [<- _]].
    rewrite map_id.
    rewrite (fold_seq_compat _ (fun sum j => sum + c * at_ ([] ++ kernel) j)
               0 (length kernel) 0 0).
    + rewrite (weighted_sum_from c kernel [] 0). rewrite Hkernel. ring.
    + reflexivity.
    + intros s s' j Hs _. simpl.
      rewrite Hs.
      rewrite (getDataValue_in_range (fun v => v == c) data _ edge Hdata Hconst).
      reflexivity.
Qed.

Lemma convolve_constant_input_witness :
  exists r,
    convolve [2; 2; 2] (Kernels.ints [1]%Z) mirror = Ok r
    /\ length (result r) = 3%nat
    /\ Forall (fun v => v == 2) (result r).
Proof.
  apply (convolve_constant_input [2; 2; 2] (Kernels.ints [1]%Z) mirror 2).
  - discriminate.
  - repeat constructor.
  - reflexivity.
Defined.

End ConvolutionProperties.

(** ** Savitzky-Golay Kernel Table *)

Section KernelProperties.

Import Kernels.

Lemma registry_keys (w : Z) :
  is_Some (SG_KERNEL_REGISTRY !! w) <-> In w supportedWindows.
Proof.
  unfold SG_KERNEL_REGISTRY, supportedWindows. split.
  - intros [set Hset].
    apply elem_of_list_to_map_2 in Hset.
    apply list_elem_of_In in Hset. simpl in Hset.
    repeat (destruct Hset as [Hset | Hset]; [inversion Hset; subst; simpl; tauto |]).
    destruct Hset.
  - simpl. intros Hin.
    repeat (destruct Hin as [<- | Hin]; [eexists; vm_compute; reflexivity |]).
    destruct Hin.
Qed.

(** C7.  For every supported window size the normalized smoothing kernel is
    returned, has as many coefficients as the window, and its coefficients
    sum to 1 (exactly, hence within 1e-9); the derivative kernel is returned
    and is antisymmetric about its centre. *)
Theorem kernel_normalization (w : Z) (Hw : In w supportedWindows) :
  (exists smooth,
      getNormalizedSmoothingKernel w = Ok smooth
      /\ Z.of_nat (length smooth) = w
      /\ sumQ smooth == 1
      /\ Qabs (sumQ smooth - 1) <= 1e-9)
  /\ (exists deriv,
         getDerivativeKernel w = Ok deriv
         /\ Z.of_nat (length deriv) = w
         /\ antisymmetric deriv).
Proof.
  unfold supportedWindows in Hw. simpl in Hw.
  repeat (destruct Hw as [<- | Hw];
    [ split;
      [ eexists; split; [vm_compute; reflexivity |];
        split; [reflexivity |]; split; vm_compute; [reflexivity | discriminate]
      | eexists; split; [vm_compute; reflexivity |];
        split; [reflexivity |]; split; [vm_compute; reflexivity |];
        simpl; intros k Hk;
        do 11 (destruct k as [|k]; [first [lia | vm_compute; reflexivity] |]); lia ]
    | ]).
  destruct Hw.
Qed.

Lemma kernel_normalization_witness :
  (exists smooth,
      getNormalizedSmoothingKernel 5 = Ok smooth
      /\ Z.of_nat (length smooth) = 5%Z
      /\ sumQ smooth == 1
      /\ Qabs (sumQ smooth - 1) <= 1e-9)
  /\ (exists deriv,
         getDerivativeKernel 5 = Ok deriv
         /\ Z.of_nat (length deriv) = 5%Z
         /\ antisymmetric deriv).
Proof.
  apply (kernel_normalization 5). simpl. tauto.
Defined.

End KernelProperties.

(** ** Scan Orchestrator: the empty scan *)

Section EmptyScan.

Import CVAnalysis.

(** C10.  On an empty scan [analyzeCVScan] returns, without throwing, the
    result whose smoothed, derivative, baseline and peak sequences and
    warning list are all empty, whatever the configuration and direction. *)
Theorem analyzeCVScan_empty
  (Math_sqrt : Q -> Q)
  (validateSmoothingQuality : list Q -> list Q -> list string)
  (validateDerivativeQuality : list Q -> Q -> list string)
  (config : AnalysisConfig) (scanDirection : ScanDirection) :
  analyzeCVScan Math_sqrt validateSmoothingQuality validateDerivativeQuality
                [] config scanDirection
  = Ok (mkCVScanResult [] [] [] [] []).
Proof. reflexivity. Qed.

End EmptyScan.

(** ** Integration Engine *)

Section IntegrationProperties.

Import Integration.

Lemma nth_map_seq {A} (f : nat -> A) (start len k : nat) (d : A) :
  (k < len)%nat -> nth k (map f (seq start len)) d = f (start + k)%nat.
Proof.
  intros Hk.
  rewrite (nth_indep _ d (f O)) by (rewrite length_map, length_seq; exact Hk).
  rewrite map_nth, seq_nth by exact Hk. reflexivity.
Qed.

Lemma everyOther_pt (points : list DataPoint2D) (k : nat) :
  (k < length (everyOther points))%nat ->
  pt (everyOther points) k = pt points (2 * k).
Proof.
  intros Hk. unfold everyOther, forRange in *.
  rewrite !length_map, length_seq in Hk.
  unfold pt at 1. rewrite map_map, nth_map_seq by exact Hk.
  f_equal. lia.
Qed.

(** [trapz] as the source writes it, calling [estimateIntegrationError]. *)
Lemma trapz_unfold (points : list DataPoint2D) :
  trapz points =
  if (length points <? 2)%nat then mkIntegrationResult 0 None
  else
    let total := trapzLoop points in
    mkIntegrationResult total
      (if (4 <=? length points)%nat
       then Some (estimateIntegrationError points total)
       else None).
Proof.
  rewrite trapz_equation_1. unfold estimateIntegrationError.
  destruct (length points <? 2)%nat; [reflexivity |]. cbv zeta.
  destruct (le_lt_dec 4 (length points)) as [H | H].
  - rewrite (proj2 (Nat.leb_le 4 _) H), (proj2 (Nat.ltb_ge _ 4) H). reflexivity.
  - rewrite (proj2 (Nat.leb_gt 4 _) H). reflexivity.
Qed.

(** C8.  [trapz] reports a Richardson error estimate exactly when it is
    given at least 4 points; the estimate is |coarse - full| / 3, where full
    is the trapezoidal area of the points and coarse the trapezoidal area of
    the points at indices 0, 2, 4, ...; with fewer than 4 points the error
    field is null. *)
Theorem trapz_richardson_error (points : list DataPoint2D) :
  area (trapz points) = (if (length points <? 2)%nat then 0 else trapzLoop points)
  /\ (error (trapz points) <> None <-> (4 <= length points)%nat)
  /\ ((4 <= length points)%nat ->
      error (trapz points)
      = Some (Qabs (area (trapz (everyOther points)) - area (trapz points)) / 3))
  /\ ((length points < 4)%nat -> error (trapz points) = None)
  /\ length (everyOther points) = ((length points + 1) / 2)%nat
  /\ (forall k, (k < length (everyOther points))%nat ->
                pt (everyOther points) k = pt points (2 * k)).
Proof.
  assert (Hsome : (4 <= length points)%nat ->
            error (trapz points)
            = Some (Qabs (area (trapz (everyOther points)) - area (trapz points)) / 3)).
  { intros H4. rewrite (trapz_unfold points).
    rewrite (proj2 (Nat.ltb_ge (length points) 2) ltac:(lia)). cbv zeta.
    rewrite (proj2 (Nat.leb_le 4 _) H4).
    unfold estimateIntegrationError.
    rewrite (proj2 (Nat.ltb_ge _ 4) H4). reflexivity. }
  assert (Hnone : (length points < 4)%nat -> error (trapz points) = None).
  { intros H4. rewrite (trapz_unfold points).
    destruct (length points <? 2)%nat; [reflexivity |]. cbv zeta.
    rewrite (proj2 (Nat.leb_gt 4 _) H4). reflexivity. }
  split; [| split; [| split; [exact Hsome | split; [exact Hnone | split]]]].
  - rewrite (trapz_unfold points).
    destruct (length points <? 2)%nat; reflexivity.
  - split.
    + intros Hne. destruct (le_lt_dec 4 (length points)) as [H | H]; [exact H |].
      elim Hne. apply Hnone. exact H.
    + intros H4. rewrite (Hsome H4). discriminate.
  - apply everyOther_length.
  - apply everyOther_pt.
Qed.

Lemma unitGrid_length (n : nat) : length (unitGrid n) = n.
Proof. unfold unitGrid. rewrite length_map, length_seq. reflexivity. Qed.

Lemma unitGrid_pt (n i : nat) :
  (i < n)%nat ->
  pt (unitGrid n) i
  = mkDataPoint2D (10 * inject_Z (Z.of_nat i) / inject_Z (Z.of_nat (n - 1))) 1.
Proof.
  intros Hi. unfold pt, unitGrid. rewrite nth_map_seq by exact Hi. reflexivity.
Qed.

Lemma inject_nat_S (n : nat) : inject_Z (Z.of_nat (S n)) == inject_Z (Z.of_nat n) + 1.
Proof. rewrite Nat2Z.inj_succ. unfold Z.succ. rewrite inject_Z_plus. reflexivity. Qed.

Lemma inject_nat_pos (n : nat) : (0 < n)%nat -> 0 < inject_Z (Z.of_nat n).
Proof.
  intros Hn. replace 0 with (inject_Z 0) by reflexivity.
  rewrite <- Zlt_Qlt. lia.
Qed.

(** The trapezoid sum telescopes when every ordinate is 1. *)
Lemma trapzLoop_telescopes (points : list DataPoint2D) (k : nat) :
  (forall i, (i <= k)%nat -> y (pt points i) == 1) ->
  fold_left (fun area i =>
               let dx := x (pt points i) - x (pt points (i - 1)) in
               area + dx * (y (pt points (i - 1)) + y (pt points i)) / 2)
            (seq 1 k) 0
  == x (pt points k) - x (pt points 0).
Proof.
  induction k as [|k IH]; intros Hy.
  - simpl. ring.
  - rewrite seq_S, fold_left_app. simpl.
    rewrite IH by (intros i Hi; apply Hy; lia).
    rewrite Nat.sub_0_r.
    rewrite (Hy k) by lia. rewrite (Hy (S k)) by lia.
    field.
Qed.

Lemma trapz_unitGrid (n : nat) : (2 <= n)%nat -> area (trapz (unitGrid n)) == 10.
Proof.
  intros Hn. rewrite trapz_unfold, unitGrid_length.
  replace (n <? 2)%nat with false by (symmetry; apply Nat.ltb_ge; exact Hn).
  simpl. unfold trapzLoop. rewrite unitGrid_length.
  rewrite trapzLoop_telescopes.
  - rewrite !unitGrid_pt by lia. simpl.
    assert (Hpos := inject_nat_pos (n - 1) ltac:(lia)).
    field. intros H0. rewrite H0 in Hpos. discriminate Hpos.
  - intros i Hi. rewrite unitGrid_pt by lia. reflexivity.
Qed.

Lemma simpson_sum_unitGrid (m j : nat) :
  (1 <= m)%nat -> (j <= m)%nat ->
  fold_left (fun area i =>
               let h := x (pt (unitGrid (2 * m + 1)) (i + 1))
                        - x (pt (unitGrid (2 * m + 1)) i) in
               area + (h / 3) * (y (pt (unitGrid (2 * m + 1)) i)
                                 + 4 * y (pt (unitGrid (2 * m + 1)) (i + 1))
                                 + y (pt (unitGrid (2 * m + 1)) (i + 2))))
            (map (fun k => (0 + k * 2)%nat) (seq 0 j)) 0
  == 10 * inject_Z (Z.of_nat j) / inject_Z (Z.of_nat m).
Proof.
  intros Hm. induction j as [|j IH]; intros Hj.
  - simpl. unfold Qdiv. ring.
  - rewrite seq_S, map_app, fold_left_app. cbn [map fold_left]. cbv zeta.
    rewrite IH by lia.
    rewrite !unitGrid_pt by lia. cbn [x y].
    replace (2 * m + 1 - 1)%nat with (m + m)%nat by lia.
    replace (0 + (0 + j) * 2 + 1)%nat with (S (j + j)) by lia.
    replace (0 + (0 + j) * 2)%nat with (j + j)%nat by lia.
    rewrite !inject_nat_S.
    rewrite !Nat2Z.inj_add, !inject_Z_plus.
    assert (Hpos := inject_nat_pos m ltac:(lia)).
    field. split; intros H0; lra.
Qed.

Lemma simpsons_unitGrid (m : nat) :
  (1 <= m)%nat -> area (simpsons (unitGrid (2 * m + 1))) == 10.
Proof.
  intros Hm. unfold simpsons. rewrite unitGrid_length.
  replace (2 * m + 1 <? 3)%nat with false by (symmetry; apply Nat.ltb_ge; lia).
  replace ((2 * m + 1) mod 2 =? 0)%nat with false.
  2:{ symmetry. apply Nat.eqb_neq.
      replace (2 * m + 1)%nat with (1 + m * 2)%nat by lia.
      rewrite Nat.Div0.mod_add. discriminate. }
  simpl orb. cbv iota. unfold area at 1.
  unfold forRange.
  replace ((2 * m + 1 - 2 - 0 + 2 - 1) / 2)%nat with m.
  2:{ replace (2 * m + 1 - 2 - 0 + 2 - 1)%nat with (m * 2)%nat by lia.
      rewrite Nat.div_mul by discriminate. reflexivity. }
  rewrite (simpson_sum_unitGrid m m Hm (Nat.le_refl m)).
  assert (Hpos := inject_nat_pos m ltac:(lia)).
  field. intros H0. rewrite H0 in Hpos. discriminate Hpos.
Qed.

(** C9.  The constant function [y = 1] sampled at uniform spacing over
    [0, 10] integrates to 10 (exactly, hence within 1e-9): by [trapz] for
    every point count from 2 on, by [simpsons] for every odd point count
    from 3 on. *)
Theorem integration_round_trip (n m : nat) (Hn : (2 <= n)%nat) (Hm : (1 <= m)%nat) :
  (area (trapz (unitGrid n)) == 10
   /\ Qabs (area (trapz (unitGrid n)) - 10) <= 1e-9)
  /\ (area (simpsons (unitGrid (2 * m + 1))) == 10
      /\ Qabs (area (simpsons (unitGrid (2 * m + 1))) - 10) <= 1e-9).
Proof.
  split; split.
  - apply trapz_unitGrid. exact Hn.
  - rewrite (trapz_unitGrid n Hn). vm_compute. discriminate.
  - apply simpsons_unitGrid. exact Hm.
  - rewrite (simpsons_unitGrid m Hm). vm_compute. discriminate.
Qed.

Lemma integration_round_trip_witness :
  (area (trapz (unitGrid 6)) == 10
   /\ Qabs (area (trapz (unitGrid 6)) - 10) <= 1e-9)
  /\ (area (simpsons (unitGrid (2 * 3 + 1))) == 10
      /\ Qabs (area (simpsons (unitGrid (2 * 3 + 1))) - 10) <= 1e-9).
Proof.
  apply (integration_round_trip 6 3); lia.
Defined.

End IntegrationProperties.

(** ** Baseline Estimators: the rubberband constraint *)

Section RubberbandProperties.

Import Baseline.

Lemma at_imap {A} (f : nat -> A -> Q) (l : list A) (i : nat) (a : A) :
  l !! i = Some a -> at_ (imap f l) i = f i a.
Proof.
  intros Hi. unfold at_. rewrite nth_lookup, list_lookup_imap, Hi. reflexivity.
Qed.

Lemma Forall2_imap_self {A B} (R : A -> B -> Prop) (f : nat -> A -> B) (l : list A) :
  (forall i a, l !! i = Some a -> R a (f i a)) -> Forall2 R l (imap f l).
Proof.
  intros HR. apply Forall2_lookup. intros i.
  rewrite list_lookup_imap.
  destruct (l !! i) as [a |] eqn:Hi; simpl; constructor.
  apply HR. exact Hi.
Qed.

Lemma Forall2_map_self {A B} (R : A -> B -> Prop) (f : A -> B) (l : list A) :
  (forall a, R a (f a)) -> Forall2 R l (map f l).
Proof.
  intros HR. induction l as [|a l IH]; simpl; constructor; [apply HR | exact IH].
Qed.



(** C2.  The rubberband baseline is aligned 1:1 with the input (same length,
    same potentials) and never crosses the data on the peak side:
    baseline <= data at every index of a forward scan, baseline >= data at
    every index of a reverse scan; for every input, direction and
    configuration. *)
Theorem rubberband_never_crosses (data : list DataPoint) (direction : ScanDirection)
  (config : RubberbandConfig) :
  length (rubberbandBaseline data direction config) = length data
  /\ Forall2 (fun d b =>
                potential b = potential d
                /\ match direction with
                   | forward => current b <= current d
                   | reverse => current d <= current b
                   end)
             data (rubberbandBaseline data direction config).
Proof.
  assert (H : Forall2 (fun d b =>
                potential b = potential d
                /\ match direction with
                   | forward => current b <= current d
                   | reverse => current d <= current b
                   end)
             data (rubberbandBaseline data direction config)).
  { unfold rubberbandBaseline.
    destruct (length data <? 3)%nat.
    - apply Forall2_map_self. intros d. simpl. split; [reflexivity |].
      destruct direction; apply Qle_refl.
    - cbv zeta. apply Forall2_imap_self. intros i d Hi. simpl.
      split; [reflexivity |].
      rewrite (at_imap _ data i d Hi).
      destruct direction.
      + apply Q.le_min_r.
      + apply Q.le_max_r. }
  split; [| exact H].
  symmetry. eapply Forall2_length. exact H.
Qed.

End RubberbandProperties.

(** ** Baseline Estimators: the ASLS band matrix *)

Section BandMatrix.

Import Baseline.

(** A sum whose terms vanish outside the window [i - 2 .. i] has at most
    three terms. *)
Lemma windowed_sum (F : nat -> Z) (i m : nat) :
  (forall k, (k + 2 < i \/ i < k)%nat -> F k = 0%Z) ->
  fold_left (fun s k => (s + F k)%Z) (seq 0 m) 0%Z
  = ((if ((2 <=? i) && (i - 2 <? m))%nat then F (i - 2)%nat else 0)
     + (if ((1 <=? i) && (i - 1 <? m))%nat then F (i - 1)%nat else 0)
     + (if (i <? m)%nat then F i else 0))%Z.
Proof.
  intros Hzero. induction m as [|m IH].
  - simpl. rewrite !andb_false_r. reflexivity.
  - rewrite seq_S, fold_left_app, IH. cbn [fold_left]. rewrite Nat.add_0_l.
    destruct (Nat.leb_spec 1 i), (Nat.leb_spec 2 i); try lia; cbn [andb];
    repeat match goal with
           | |- context [(?a <? ?b)%nat] => destruct (Nat.ltb_spec a b); try lia
           end;
    try (replace (i - 2)%nat with m by lia);
    try (replace (i - 1)%nat with m by lia);
    try (replace i with m by lia);
    try (rewrite (Hzero m) by lia);
    lia.
Qed.

Lemma D2_support (i j k : nat) :
  (k + 2 < i \/ i < k)%nat -> (D2 k i * D2 k j)%Z = 0%Z.
Proof.
  intros Hk. unfold D2.
  destruct (Nat.eqb_spec i k); [lia |].
  destruct (Nat.eqb_spec i (k + 1)); [lia |].
  destruct (Nat.eqb_spec i (k + 2)); [lia |].
  reflexivity.
Qed.

(** [D2' D2] in closed form, for at least 4 samples. *)
Lemma D2tD2_closed (n i j : nat) :
  (4 <= n)%nat -> (i < n)%nat -> (j < n)%nat ->
  D2tD2 n i j =
  if (i =? j)%nat then diagPattern n i
  else if (i =? j + 1)%nat then sub1Pattern n j
  else if (j =? i + 1)%nat then sub1Pattern n i
  else if ((i =? j + 2) || (j =? i + 2))%nat then 1%Z
  else 0%Z.
Proof.
  intros Hn Hi Hj. unfold D2tD2.
  rewrite (windowed_sum (fun k => D2 k i * D2 k j)%Z i (n - 2))
    by (intros k Hk; apply D2_support; exact Hk).
  unfold D2, diagPattern, sub1Pattern.
  repeat match goal with
         | |- context [(?a =? ?b)%nat] => destruct (Nat.eqb_spec a b); try lia
         | |- context [(?a <? ?b)%nat] => destruct (Nat.ltb_spec a b); try lia
         | |- context [(?a <=? ?b)%nat] => destruct (Nat.leb_spec a b); try lia
         end; simpl; lia.
Qed.

Lemma at_map_seq (g : nat -> Q) (len i : nat) :
  (i < len)%nat -> at_ (map g (seq 0 len)) i = g i.
Proof.
  intros Hi. unfold at_.
  rewrite (nth_indep _ 0 (g O)) by (rewrite length_map, length_seq; exact Hi).
  rewrite map_nth, seq_nth by exact Hi. reflexivity.
Qed.

(** C3.  For [n >= 5] the matrix that [solvePentadiagonal] assembles is
    [diag(w) + lambda D2' D2]: its main diagonal is
    [w_i + lambda {1, 5, 6, ..., 6, 5, 1}], its first off-diagonal
    [lambda {-2, -4, ..., -4, -2}], its second off-diagonal [lambda], and
    entry by entry it equals [diag(w) + lambda D2' D2] with [D2] the
    second-difference operator. *)
Theorem pentadiagonal_bands_are_penalty_matrix (w : list Q) (lambda : Q) (n : nat)
  (Hn : (5 <= n)%nat) :
  let '(a, e, f) := pentadiagonalBands w lambda n in
  (length a = n /\ length e = (n - 1)%nat /\ length f = (n - 2)%nat)
  /\ (forall i, (i < n)%nat ->
                at_ a i == at_ w i + lambda * inject_Z (diagPattern n i))
  /\ (forall i, (i < n - 1)%nat -> at_ e i == lambda * inject_Z (sub1Pattern n i))
  /\ (forall i, (i < n - 2)%nat -> at_ f i == lambda)
  /\ (forall i j, (i < n)%nat -> (j < n)%nat ->
        bandEntry a e f i j
        == (if (i =? j)%nat then at_ w i else 0) + lambda * inject_Z (D2tD2 n i j)).
Proof.
  unfold pentadiagonalBands.
  assert (Ha : forall i, (i < n)%nat ->
    at_ (map (fun i => at_ w i + lambda *
                (if ((i =? 0) || (i =? n - 1))%nat then 1
                 else if ((i =? 1) || (i =? n - 2))%nat then 5 else 6)) (seq 0 n)) i
    == at_ w i + lambda * inject_Z (diagPattern n i)).
  { intros i Hi. rewrite at_map_seq by exact Hi. unfold diagPattern.
    destruct ((i =? 0) || (i =? n - 1))%nat; [reflexivity |].
    destruct ((i =? 1) || (i =? n - 2))%nat; reflexivity. }
  assert (He : forall i, (i < n - 1)%nat ->
    at_ (map (fun i => if ((i =? 0) || (i =? n - 2))%nat
                       then lambda * (-2) else lambda * (-4)) (seq 0 (n - 1))) i
    == lambda * inject_Z (sub1Pattern n i)).
  { intros i Hi. rewrite at_map_seq by exact Hi. unfold sub1Pattern.
    destruct ((i =? 0) || (i =? n - 2))%nat; reflexivity. }
  assert (Hf : forall i, (i < n - 2)%nat ->
    at_ (map (fun _ : nat => lambda) (seq 0 (n - 2))) i == lambda).
  { intros i Hi. rewrite at_map_seq by exact Hi. reflexivity. }
  split; [| split; [exact Ha | split; [exact He | split; [exact Hf |]]]].
  - rewrite !length_map, !length_seq. tauto.
  - intros i j Hi Hj.
    rewrite (D2tD2_closed n i j) by lia.
    unfold bandEntry.
    destruct (Nat.eqb_spec i j) as [-> | Hij].
    { apply Ha. exact Hj. }
    destruct (Nat.eqb_spec i (j + 1)) as [-> | Hij1].
    { rewrite He by lia. ring. }
    destruct (Nat.eqb_spec j (i + 1)) as [-> | Hji1].
    { rewrite He by lia. ring. }
    destruct (Nat.eqb_spec i (j + 2)) as [-> | Hij2].
    { rewrite Hf by lia. simpl. ring. }
    destruct (Nat.eqb_spec j (i + 2)) as [-> | Hji2].
    { rewrite Hf by lia. simpl. ring. }
    simpl. ring.
Qed.

Lemma pentadiagonal_bands_are_penalty_matrix_witness :
  let '(a, e, f) := pentadiagonalBands [1; 1; 1; 1; 1; 1] 2 6 in
  (length a = 6%nat /\ length e = (6 - 1)%nat /\ length f = (6 - 2)%nat)
  /\ (forall i, (i < 6)%nat ->
                at_ a i == at_ [1; 1; 1; 1; 1; 1] i + 2 * inject_Z (diagPattern 6 i))
  /\ (forall i, (i < 6 - 1)%nat -> at_ e i == 2 * inject_Z (sub1Pattern 6 i))
  /\ (forall i, (i < 6 - 2)%nat -> at_ f i == 2)
  /\ (forall i j, (i < 6)%nat -> (j < 6)%nat ->
        bandEntry a e f i j
        == (if (i =? j)%nat then at_ [1; 1; 1; 1; 1; 1] i else 0)
           + 2 * inject_Z (D2tD2 6 i j)).
Proof.
  apply (pentadiagonal_bands_are_penalty_matrix [1; 1; 1; 1; 1; 1] 2 6). lia.
Defined.

End BandMatrix.

(** ** Peak Analyzer: charge integration *)

Section ChargeIntegration.

Import CVAnalysis.

Lemma sortInsert_In {A} (cmp : A -> A -> Q) (x a : A) (l : list A) :
  In a (sortInsert cmp x l) <-> a = x \/ In a l.
Proof.
  induction l as [|b l IH]; simpl.
  - intuition.
  - destruct (Qleb (cmp x b) 0); simpl; [intuition | rewrite IH; intuition].
Qed.

Lemma sortBy_In {A} (cmp : A -> A -> Q) (a : A) (l : list A) :
  In a (sortBy cmp l) <-> In a l.
Proof.
  unfold sortBy. induction l as [|b l IH]; simpl.
  - reflexivity.
  - rewrite sortInsert_In, IH. intuition.
Qed.

Lemma peakRecord_charge (smoothed baseline : list DataPoint) (corrected : list Q)
  (isOxidation : bool) (peak : Candidate) (r : CVPeakResult) :
  peakRecord smoothed baseline corrected isOxidation peak = Ok r ->
  peak_index r = index peak
  /\ (startIndex r, endIndex r) = findPeakBoundaries corrected (index peak) isOxidation
  /\ chargeUnit r = (if hasTime smoothed then unit_C else unit_VA)
  /\ CVAnalysis.area r
     = integratePeakArea smoothed baseline (startIndex r) (endIndex r) (hasTime smoothed).
Proof.
  unfold peakRecord.
  destruct (findPeakBoundaries corrected (index peak) isOxidation) as [s e].
  destruct (interpolatePeakPotential smoothed corrected (index peak)); simpl; [| discriminate].
  destruct (Baseline.readPoint smoothed (Z.of_nat (index peak))); simpl; [| discriminate].
  destruct (Baseline.readPoint smoothed (Z.of_nat s)); simpl; [| discriminate].
  destruct (Baseline.readPoint smoothed (Z.of_nat e)); simpl; [| discriminate].
  intros [= <-]. simpl. auto.
Qed.

Lemma peakRecords_In (smoothed baseline : list DataPoint) (corrected : list Q)
  (isOxidation : bool) (merged : list Candidate) (rs : list CVPeakResult)
  (r : CVPeakResult) :
  peakRecords smoothed baseline corrected isOxidation merged = Ok rs ->
  In r rs ->
  exists peak,
    In peak merged /\ peakRecord smoothed baseline corrected isOxidation peak = Ok r.
Proof.
  revert rs. induction merged as [|peak merged IH]; intros rs; simpl.
  - intros [= <-] [].
  - destruct (peakRecord smoothed baseline corrected isOxidation peak) as [r0 |] eqn:Hr0;
      simpl; [| discriminate].
    destruct (peakRecords smoothed baseline corrected isOxidation merged) as [rs0 |];
      simpl; [| discriminate].
    intros [= <-] [<- | Hin].
    + exists peak. auto.
    + destruct (IH rs0 eq_refl Hin) as [peak' [Hp Hr]]. exists peak'. auto.
Qed.

(** What [findCVPeaks] does for the charge of every peak it reports: the
    unit and the integration axis follow the time field of the first
    sample alone. *)
Lemma findCVPeaks_charge (smoothed baseline : list DataPoint) (corrected : list Q)
  (direction : ScanDirection) (threshold : Q) (found : list CVPeakResult)
  (pk : CVPeakResult) :
  findCVPeaks smoothed baseline corrected direction threshold = Ok found ->
  In pk found ->
  chargeUnit pk = (if hasTime smoothed then unit_C else unit_VA)
  /\ CVAnalysis.area pk
     = integratePeakArea smoothed baseline (startIndex pk) (endIndex pk) (hasTime smoothed).
Proof.
  unfold findCVPeaks.
  destruct (length corrected <? 5)%nat; [intros [= <-] [] |].
  cbv zeta.
  match goal with
  | |- context [(length ?c =? 0)%nat] => destruct (length c =? 0)%nat
  end; [intros [= <-] [] |].
  match goal with
  | |- context [peakRecords ?a ?b ?c ?d ?e] =>
      destruct (peakRecords a b c d e) as [rs |] eqn:Hrs
  end; simpl; [| discriminate].
  intros [= <-] Hin. apply sortBy_In in Hin.
  destruct (peakRecords_In _ _ _ _ _ _ _ Hrs Hin) as [peak [_ Hpeak]].
  apply peakRecord_charge in Hpeak. tauto.
Qed.

(** The points [buildIntegrationPoints] builds: one per index from
    [startIndex] to [endIndex] (cut at the end of the data), with the
    baseline-corrected current as [y]; [x] is the sample's time when
    [useTime] is set and the sample has one, its potential otherwise. *)
Lemma buildIntegrationPoints_spec (data baseline : list DataPoint)
  (startIndex endIndex : nat) (useTime : bool) :
  Forall2 (fun i point =>
             exists d,
               nth_error data i = Some d
               /\ Integration.y point = current d - baselineAt baseline i
               /\ Integration.x point
                  = match useTime, time d with
                    | true, Some t => t
                    | _, _ => potential d
                    end)
          (seq startIndex (Nat.min (endIndex + 1) (length data) - startIndex))
          (buildIntegrationPoints data baseline startIndex endIndex useTime).
Proof.
  unfold buildIntegrationPoints.
  assert (Hrange : forall i,
            In i (seq startIndex (Nat.min (endIndex + 1) (length data) - startIndex)) ->
            (i < length data)%nat).
  { intros i Hi. apply in_seq in Hi. lia. }
  induction (seq startIndex (Nat.min (endIndex + 1) (length data) - startIndex))
    as [|i l IH]; simpl.
  - constructor.
  - destruct (nth_error data i) as [d |] eqn:Hd.
    + simpl. constructor.
      * exists d. auto.
      * apply IH. intros j Hj. apply Hrange. right. exact Hj.
    + apply nth_error_None in Hd. specialize (Hrange i (or_introl eq_refl)). lia.
Qed.

(** C1 (the code departs from it).  On [partialTimeScan] not every sample
    has a time value, so the charge should be integrated over potential and
    reported in V.A.  [analyzeCVScan] reports one oxidation peak over
    indices 0..4 with unit C, and the abscissae it integrates over mix the
    times 10, 11, 13, 14 with the potential 0.2 of the sample without time:
    only the first sample is probed for a time value. *)
Theorem charge_unit_probes_first_sample_only
  (Math_sqrt : Q -> Q)
  (validateSmoothingQuality : list Q -> list Q -> list string)
  (validateDerivativeQuality : list Q -> Q -> list string) :
  everyHasTime partialTimeScan = false
  /\ exists res pk,
       analyzeCVScan Math_sqrt validateSmoothingQuality validateDerivativeQuality
                     partialTimeScan rawLinearConfig forward = Ok res
       /\ smoothed res = partialTimeScan
       /\ peaks res = [pk]
       /\ chargeUnit pk = unit_C
       /\ chargeUnit pk <> (if everyHasTime (smoothed res) then unit_C else unit_VA)
       /\ startIndex pk = 0%nat /\ endIndex pk = 4%nat
       /\ CVAnalysis.area pk
          = integratePeakArea (smoothed res) (baseline res)
              (startIndex pk) (endIndex pk) (hasTime (smoothed res))
       /\ map Integration.x
              (buildIntegrationPoints (smoothed res) (baseline res)
                 (startIndex pk) (endIndex pk) (hasTime (smoothed res)))
          = [10; 11; 0.2; 13; 14].
Proof.
  split; [reflexivity |].
  eexists. eexists.
  split; [vm_compute; reflexivity |].
  cbn [smoothed peaks baseline].
  split; [reflexivity |].
  split; [reflexivity |].
  cbn [chargeUnit startIndex endIndex].
  split; [reflexivity |]. split; [discriminate |].
  split; [reflexivity |]. split; [reflexivity |].
  split; vm_compute; reflexivity.
Qed.

(** Where the samples agree on having a time value, the unit and the axis
    are the ones the time data calls for. *)
Lemma hasTime_of_every (smoothed : list DataPoint) :
  smoothed <> [] -> everyHasTime smoothed = true -> hasTime smoothed = true.
Proof.
  destruct smoothed as [|d rest]; [congruence |].
  unfold everyHasTime, hasTime. simpl. intros _ H.
  apply andb_prop in H as [H _]. exact H.
Qed.

Lemma integration_axis_time (data baseline : list DataPoint) (startIndex endIndex : nat) :
  everyHasTime data = true ->
  Forall2 (fun i point => exists d, nth_error data i = Some d
                                    /\ time d = Some (Integration.x point))
          (seq startIndex (Nat.min (endIndex + 1) (length data) - startIndex))
          (buildIntegrationPoints data baseline startIndex endIndex true).
Proof.
  intros Hall.
  eapply Forall2_impl; [apply buildIntegrationPoints_spec |].
  intros i point [d [Hd [_ Hx]]]. exists d. split; [exact Hd |].
  unfold everyHasTime in Hall. rewrite forallb_forall in Hall.
  specialize (Hall d (nth_error_In _ _ Hd)).
  destruct (time d); [rewrite Hx; reflexivity | discriminate].
Qed.

Lemma integration_axis_potential (data baseline : list DataPoint)
  (startIndex endIndex : nat) :
  Forall2 (fun i point => exists d, nth_error data i = Some d
                                    /\ Integration.x point = potential d)
          (seq startIndex (Nat.min (endIndex + 1) (length data) - startIndex))
          (buildIntegrationPoints data baseline startIndex endIndex false).
Proof.
  eapply Forall2_impl; [apply buildIntegrationPoints_spec |].
  intros i point [d [Hd [_ Hx]]]. exists d. auto.
Qed.

End ChargeIntegration.

(** ** Peak Analyzer: merging is idempotent *)

#[local] Instance byProminence_transitive : Transitive byProminence.
Proof. intros a b c Hab Hbc. unfold byProminence in *. eapply Qle_trans; eassumption. Qed.

Section MergeIdempotence.

Import CVAnalysis.

Variable minSeparation : Q.

Lemma near_sym (a b : Candidate) : near minSeparation a b = near minSeparation b a.
Proof. unfold near. do 2 f_equal. lia. Qed.

Lemma absorb_step (peak : Candidate) (used : gset nat) (best other : Candidate) :
  absorb peak minSeparation (used, best) other
  = if bool_decide (index other = index peak) || bool_decide (index other ∈ used)
    then (used, best)
    else if near minSeparation other peak
    then if Qgtb (prominence other) (prominence best)
         then (used ∪ {[ index other ]} ∪ {[ index best ]}, other)
         else (used ∪ {[ index other ]}, best)
    else (used, best).
Proof. reflexivity. Qed.

Lemma mergeStep_step (peaks result : list Candidate) (used : gset nat) (peak : Candidate) :
  mergeStep peaks minSeparation (result, used) peak
  = if bool_decide (index peak ∈ used) then (result, used)
    else (result ++ [snd (fold_left (absorb peak minSeparation) peaks (used, peak))],
          fst (fold_left (absorb peak minSeparation) peaks (used, peak))
          ∪ {[ index (snd (fold_left (absorb peak minSeparation) peaks (used, peak))) ]}).
Proof.
  unfold mergeStep. destruct (bool_decide (index peak ∈ used)); [reflexivity |].
  destruct (fold_left (absorb peak minSeparation) peaks (used, peak)). reflexivity.
Qed.

Lemma Qgtb_false (a b : Q) : a <= b -> Qgtb a b = false.
Proof.
  intros H. unfold Qgtb, Qltb. apply Qle_bool_iff in H. rewrite H. reflexivity.
Qed.

(** When no unused candidate is more prominent than [peak], the inner loop
    keeps [peak] as the best one and marks every other candidate near it. *)
Lemma absorb_keeps_peak (peak : Candidate) (others : list Candidate) (used : gset nat) :
  (forall o, o ∈ others -> index o ∉ used -> index o <> index peak ->
             prominence o <= prominence peak) ->
  exists used',
    fold_left (absorb peak minSeparation) others (used, peak) = (used', peak)
    /\ used ⊆ used'
    /\ (forall o, o ∈ others -> index o <> index peak -> near minSeparation o peak = true ->
                  index o ∈ used').
Proof.
  revert used. induction others as [|o others IH]; intros used Hbest.
  - exists used. split; [reflexivity |]. split; [set_solver |].
    intros o Ho. apply elem_of_nil in Ho. destruct Ho.
  - cbn [fold_left]. rewrite absorb_step.
    destruct (bool_decide (index o = index peak) || bool_decide (index o ∈ used)) eqn:Hskip.
    + destruct (IH used) as [used' [Hfold [Hsub Hmark]]].
      { intros o' Ho'. apply Hbest. apply elem_of_cons. right. exact Ho'. }
      exists used'. split; [exact Hfold |]. split; [exact Hsub |].
      intros o' Ho' Hne Hnear. apply elem_of_cons in Ho' as [-> | Ho'].
      * apply orb_prop in Hskip as [Hskip | Hskip]; apply bool_decide_eq_true in Hskip.
        -- congruence.
        -- set_solver.
      * apply Hmark; assumption.
    + apply orb_false_elim in Hskip as [Hne Hunused].
      apply bool_decide_eq_false in Hne. apply bool_decide_eq_false in Hunused.
      destruct (near minSeparation o peak) eqn:Hnear.
      * rewrite Qgtb_false
          by (apply Hbest; [apply elem_of_cons; left; reflexivity | assumption | assumption]).
        destruct (IH (used ∪ {[ index o ]})) as [used' [Hfold [Hsub Hmark]]].
        { intros o' Ho' Hun'. apply Hbest; [apply elem_of_cons; right; exact Ho' | set_solver]. }
        exists used'. split; [exact Hfold |]. split; [set_solver |].
        intros o' Ho' Hne' Hnear'. apply elem_of_cons in Ho' as [-> | Ho'].
        -- set_solver.
        -- apply Hmark; assumption.
      * destruct (IH used) as [used' [Hfold [Hsub Hmark]]].
        { intros o' Ho'. apply Hbest. apply elem_of_cons. right. exact Ho'. }
        exists used'. split; [exact Hfold |]. split; [exact Hsub |].
        intros o' Ho' Hne' Hnear'. apply elem_of_cons in Ho' as [-> | Ho'].
        -- congruence.
        -- apply Hmark; assumption.
Qed.

(** When nothing is near [peak], the inner loop changes nothing. *)
Lemma absorb_nothing_near (peak : Candidate) (others : list Candidate)
  (used : gset nat) (best : Candidate) :
  (forall o, o ∈ others -> index o = index peak \/ near minSeparation o peak = false) ->
  fold_left (absorb peak minSeparation) others (used, best) = (used, best).
Proof.
  induction others as [|o others IH]; intros Hfar; [reflexivity |].
  cbn [fold_left]. rewrite absorb_step.
  assert (Hstep : (if bool_decide (index o = index peak) || bool_decide (index o ∈ used)
                   then (used, best)
                   else if near minSeparation o peak
                        then if Qgtb (prominence o) (prominence best)
                             then (used ∪ {[ index o ]} ∪ {[ index best ]}, o)
                             else (used ∪ {[ index o ]}, best)
                        else (used, best)) = (used, best)).
  { destruct (Hfar o) as [Heq | Hnear]; [apply elem_of_cons; left; reflexivity | |].
    - rewrite (bool_decide_eq_true_2 _ Heq). reflexivity.
    - rewrite Hnear. destruct (_ || _); reflexivity. }
  rewrite Hstep. apply IH. intros o' Ho'. apply Hfar. apply elem_of_cons. right. exact Ho'.
Qed.

(** The outer loop on a prominence-sorted list.  [pre] are the candidates
    already visited: all of them are marked, the kept ones come from them,
    every unmarked candidate is away from every kept one, and the kept ones
    are separated. *)
Lemma merge_loop_separated (peaks : list Candidate) :
  StronglySorted byProminence peaks ->
  forall suf pre result used,
    peaks = pre ++ suf ->
    (forall p, p ∈ pre -> index p ∈ used) ->
    (forall r, r ∈ result -> r ∈ pre) ->
    (forall q r, q ∈ peaks -> index q ∉ used -> r ∈ result ->
                 near minSeparation q r = false) ->
    separated minSeparation result ->
    separated minSeparation
      (fst (fold_left (mergeStep peaks minSeparation) suf (result, used))).
Proof.
  intros Hsorted.
  induction suf as [|peak suf IH]; intros pre result used Hpeaks Hpre Hres Hfar Hsep.
  - exact Hsep.
  - cbn [fold_left]. rewrite mergeStep_step.
    assert (Hpeaks' : peaks = (pre ++ [peak]) ++ suf)
      by (rewrite <- app_assoc; exact Hpeaks).
    destruct (bool_decide (index peak ∈ used)) eqn:Hused.
    + apply bool_decide_eq_true in Hused.
      apply (IH (pre ++ [peak])); try assumption.
      * intros p Hp. apply elem_of_app in Hp as [Hp | Hp]; [apply Hpre; exact Hp |].
        apply list_elem_of_singleton in Hp as ->. exact Hused.
      * intros r Hr. apply elem_of_app. left. apply Hres. exact Hr.
    + apply bool_decide_eq_false in Hused.
      destruct (absorb_keeps_peak peak peaks used) as [used' [Hfold [Hsub Hmark]]].
      { intros o Ho Hun Hne. rewrite Hpeaks in Ho, Hsorted.
        apply elem_of_app in Ho as [Ho | Ho]; [elim Hun; apply Hpre; exact Ho |].
        apply elem_of_cons in Ho as [-> | Ho]; [congruence |].
        apply StronglySorted_app_1_r, StronglySorted_cons in Hsorted as [Hall _].
        rewrite Forall_forall in Hall. apply Hall. exact Ho. }
      rewrite Hfold. cbn [fst snd].
      assert (Hfresh : forall r, r ∈ result -> index r <> index peak).
      { intros r Hr Heq. apply Hused. rewrite <- Heq. apply Hpre, Hres, Hr. }
      assert (Hpeak_in : peak ∈ peaks).
      { rewrite Hpeaks. apply elem_of_app. right. apply elem_of_cons. left. reflexivity. }
      apply (IH (pre ++ [peak])); try assumption.
      * intros p Hp. apply elem_of_app in Hp as [Hp | Hp].
        -- apply elem_of_union_l, Hsub, Hpre, Hp.
        -- apply list_elem_of_singleton in Hp as ->.
           apply elem_of_union_r, elem_of_singleton. reflexivity.
      * intros r Hr. apply elem_of_app in Hr as [Hr | Hr].
        -- apply elem_of_app. left. apply Hres, Hr.
        -- apply elem_of_app. right. exact Hr.
      * intros q r Hq Hun Hr.
        assert (Hun0 : index q ∉ used)
          by (intros Hin; apply Hun, elem_of_union_l, Hsub, Hin).
        apply elem_of_app in Hr as [Hr | Hr]; [apply Hfar; assumption |].
        apply list_elem_of_singleton in Hr as ->.
        destruct (near minSeparation q peak) eqn:Hnear; [| reflexivity].
        elim Hun. apply elem_of_union_l. apply Hmark; [exact Hq | | exact Hnear].
        intros Heq. apply Hun, elem_of_union_r, elem_of_singleton. exact Heq.
      * destruct Hsep as [Hnodup Hpair]. split.
        -- rewrite fmap_app. apply NoDup_app. split; [exact Hnodup |]. split.
           ++ intros i Hi Hi'. apply list_elem_of_fmap in Hi as [r [-> Hr]].
              apply list_elem_of_singleton in Hi'. exact (Hfresh r Hr Hi').
           ++ apply NoDup_singleton.
        -- intros a b Ha Hb Hne.
           apply elem_of_app in Ha as [Ha | Ha]; apply elem_of_app in Hb as [Hb | Hb].
           ++ apply Hpair; assumption.
           ++ apply list_elem_of_singleton in Hb as ->.
              rewrite near_sym. apply Hfar; assumption.
           ++ apply list_elem_of_singleton in Ha as ->.
              apply Hfar; assumption.
           ++ apply list_elem_of_singleton in Ha as ->.
              apply list_elem_of_singleton in Hb as ->. congruence.
Qed.

(** The outer loop on a separated list keeps every candidate, in order. *)
Lemma merge_loop_fixed (peaks : list Candidate) :
  separated minSeparation peaks ->
  forall suf pre result used,
    peaks = pre ++ suf ->
    (forall i, i ∈ used -> i ∈ index <$> pre) ->
    fst (fold_left (mergeStep peaks minSeparation) suf (result, used)) = result ++ suf.
Proof.
  intros [Hnodup Hpair].
  induction suf as [|peak suf IH]; intros pre result used Hpeaks Hused.
  - simpl. rewrite app_nil_r. reflexivity.
  - cbn [fold_left]. rewrite mergeStep_step.
    assert (Hpeak_in : peak ∈ peaks).
    { rewrite Hpeaks. apply elem_of_app. right. apply elem_of_cons. left. reflexivity. }
    assert (Hfresh : index peak ∉ used).
    { intros Hin. apply Hused in Hin.
      rewrite Hpeaks, fmap_app in Hnodup.
      apply NoDup_app in Hnodup as [_ [Hdisj _]].
      apply (Hdisj _ Hin). rewrite fmap_cons. apply elem_of_cons. left. reflexivity. }
    rewrite (bool_decide_eq_false_2 _ Hfresh).
    rewrite absorb_nothing_near.
    2:{ intros o Ho. destruct (decide (index o = index peak)) as [Heq | Hne];
          [left; exact Heq | right; apply Hpair; assumption]. }
    cbn [fst snd].
    rewrite (IH (pre ++ [peak])).
    + rewrite <- app_assoc. reflexivity.
    + rewrite <- app_assoc. exact Hpeaks.
    + intros i Hi. rewrite fmap_app. apply elem_of_app.
      apply elem_of_union in Hi as [Hi | Hi]; [left; apply Hused; exact Hi |].
      right. apply elem_of_singleton in Hi as ->.
      rewrite fmap_cons. apply elem_of_cons. left. reflexivity.
Qed.

(** C4.  Merging is idempotent on prominence-sorted candidates: merging the
    output of [mergePeaks] again, with the same minimum separation, returns
    that output unchanged. *)
Theorem mergePeaks_idempotent (peaks : list Candidate)
  (Hsorted : Sorted byProminence peaks) :
  mergePeaks (mergePeaks peaks minSeparation) minSeparation
  = mergePeaks peaks minSeparation.
Proof.
  apply Sorted_StronglySorted in Hsorted; [| apply byProminence_transitive].
  unfold mergePeaks at 1.
  destruct (length (mergePeaks peaks minSeparation) <=? 1)%nat eqn:Hshort; [reflexivity |].
  assert (Hsep : separated minSeparation (mergePeaks peaks minSeparation)).
  { unfold mergePeaks in *.
    destruct (length peaks <=? 1)%nat eqn:Hlen; [congruence |].
    apply (merge_loop_separated peaks Hsorted peaks [] [] ∅).
    - reflexivity.
    - intros p Hp. apply elem_of_nil in Hp. destruct Hp.
    - intros r Hr. exact Hr.
    - intros q r _ _ Hr. apply elem_of_nil in Hr. destruct Hr.
    - split; [constructor |]. intros a b Ha. apply elem_of_nil in Ha. destruct Ha. }
  rewrite (merge_loop_fixed _ Hsep (mergePeaks peaks minSeparation) [] [] ∅).
  - reflexivity.
  - reflexivity.
  - intros i Hi. apply elem_of_empty in Hi. destruct Hi.
Qed.

End MergeIdempotence.

Lemma mergePeaks_idempotent_witness :
  let peaks := [ CVAnalysis.mkCandidate 10 5 5; CVAnalysis.mkCandidate 12 4 4;
                 CVAnalysis.mkCandidate 30 3 3; CVAnalysis.mkCandidate 13 2 2 ] in
  Sorted byProminence peaks
  /\ CVAnalysis.mergePeaks peaks 5
     = [ CVAnalysis.mkCandidate 10 5 5; CVAnalysis.mkCandidate 30 3 3 ]
  /\ CVAnalysis.mergePeaks (CVAnalysis.mergePeaks peaks 5) 5 = CVAnalysis.mergePeaks peaks 5.
Proof.
  assert (Hsorted : Sorted byProminence
            [ CVAnalysis.mkCandidate 10 5 5; CVAnalysis.mkCandidate 12 4 4;
              CVAnalysis.mkCandidate 30 3 3; CVAnalysis.mkCandidate 13 2 2 ]).
  { repeat constructor; unfold byProminence; simpl; discriminate. }
  split; [exact Hsorted |]. split; [vm_compute; reflexivity |].
  apply (mergePeaks_idempotent 5 _ Hsorted).
Defined.

(** ** The orchestrator returns *)

Section Returns.

Import CVAnalysis.

(** [findCVPeaks] hands [mergePeaks] a list sorted by prominence, highest
    first. *)
Lemma sortInsert_byProminence (x : Candidate) (l : list Candidate) :
  Sorted byProminence l ->
  Sorted byProminence (sortInsert (fun a b => prominence b - prominence a) x l).
Proof.
  induction l as [|y l IH]; intros Hl; simpl.
  - repeat constructor.
  - destruct (Qleb (prominence y - prominence x) 0) eqn:Hcmp.
    + apply Qle_bool_iff in Hcmp.
      constructor; [exact Hl |]. constructor. unfold byProminence. lra.
    + assert (Hlt : prominence x <= prominence y).
      { unfold Qleb in Hcmp. destruct (Qlt_le_dec 0 (prominence y - prominence x)) as [H | H].
        - lra.
        - apply Qle_bool_iff in H. congruence. }
      inversion Hl as [| ? ? Hl' Hhd]; subst.
      constructor; [apply IH; exact Hl' |].
      destruct l as [|z l]; simpl.
      * constructor. exact Hlt.
      * destruct (Qleb (prominence z - prominence x) 0); constructor;
          [exact Hlt | inversion Hhd; assumption].
Qed.

Lemma sortBy_byProminence (l : list Candidate) :
  Sorted byProminence (sortBy (fun a b => prominence b - prominence a) l).
Proof.
  unfold sortBy. induction l as [|x l IH]; simpl.
  - constructor.
  - apply sortInsert_byProminence. exact IH.
Qed.

Lemma absorb_best_from (peak : Candidate) (minSeparation : Q) (others : list Candidate)
  (used : gset nat) (best : Candidate) :
  In (snd (fold_left (absorb peak minSeparation) others (used, best))) (best :: others).
Proof.
  revert used best. induction others as [|o others IH]; intros used best.
  - left. reflexivity.
  - cbn [fold_left]. unfold absorb at 2.
    destruct (_ || _).
    + destruct (IH used best) as [H | H]; [left; exact H | right; right; exact H].
    + destruct (Qltb _ minSeparation).
      * destruct (Qgtb (prominence o) (prominence best)).
        -- destruct (IH (used ∪ {[ index o ]} ∪ {[ index best ]}) o) as [H | H];
             [right; left; exact H | right; right; exact H].
        -- destruct (IH (used ∪ {[ index o ]}) best) as [H | H];
             [left; exact H | right; right; exact H].
      * destruct (IH used best) as [H | H]; [left; exact H | right; right; exact H].
Qed.

Lemma merge_loop_from (peaks : list Candidate) (minSeparation : Q)
  (suf result : list Candidate) (used : gset nat) (c : Candidate) :
  In c (fst (fold_left (mergeStep peaks minSeparation) suf (result, used))) ->
  In c result \/ In c suf \/ In c peaks.
Proof.
  revert result used. induction suf as [|peak suf IH]; intros result used Hc.
  - left. exact Hc.
  - cbn [fold_left] in Hc. rewrite mergeStep_step in Hc.
    destruct (bool_decide (index peak ∈ used)).
    + destruct (IH _ _ Hc) as [H | [H | H]]; [left; exact H | right; left; right; exact H | tauto].
    + destruct (IH _ _ Hc) as [H | [H | H]]; [| right; left; right; exact H | tauto].
      apply in_app_or in H as [H | [<- | []]]; [left; exact H |].
      destruct (absorb_best_from peak minSeparation peaks used peak) as [<- | H'].
      * right. left. left. reflexivity.
      * right. right. exact H'.
Qed.

Lemma mergePeaks_from (peaks : list Candidate) (minSeparation : Q) (c : Candidate) :
  In c (mergePeaks peaks minSeparation) -> In c peaks.
Proof.
  unfold mergePeaks. destruct (length peaks <=? 1)%nat; [tauto |].
  intros Hc. apply merge_loop_from in Hc as [[] | [H | H]]; exact H.
Qed.

Lemma boundaryWalk_from (corrected : list Q) (isMax : bool) (indices : list nat)
  (bound : nat) :
  boundaryWalk corrected isMax indices bound = bound
  \/ In (boundaryWalk corrected isMax indices bound) indices.
Proof.
  revert bound. induction indices as [|i rest IH]; intros bound; simpl.
  - left. reflexivity.
  - destruct (if isMax then _ else _).
    + right. left. reflexivity.
    + destruct (IH i) as [H | H]; right; [left; symmetry; exact H | right; exact H].
Qed.

Lemma findPeakBoundaries_range (corrected : list Q) (peakIdx : nat) (isMax : bool) :
  (peakIdx < length corrected)%nat ->
  (fst (findPeakBoundaries corrected peakIdx isMax) < length corrected)%nat
  /\ (snd (findPeakBoundaries corrected peakIdx isMax) < length corrected)%nat.
Proof.
  intros Hp. unfold findPeakBoundaries. cbn [fst snd]. split.
  - destruct (boundaryWalk_from corrected isMax (rev (seq 0 peakIdx)) peakIdx) as [-> | H];
      [exact Hp |].
    apply in_rev, in_seq in H. lia.
  - destruct (boundaryWalk_from corrected isMax
                (seq (peakIdx + 1) (length corrected - (peakIdx + 1))) peakIdx) as [-> | H];
      [exact Hp |].
    apply in_seq in H. lia.
Qed.

Lemma readPoint_in_range (data : list DataPoint) (i : Z) :
  (0 <= i < Z.of_nat (length data))%Z -> exists d, Baseline.readPoint data i = Ok d.
Proof.
  intros Hi. unfold Baseline.readPoint.
  destruct (Z.ltb_spec i 0); [lia |].
  destruct (nth_error data (Z.to_nat i)) as [d |] eqn:Hd; [exists d; reflexivity |].
  apply nth_error_None in Hd. lia.
Qed.

Lemma interpolatePeakPotential_returns (smoothed : list DataPoint) (corrected : list Q)
  (peakIdx : nat) :
  length corrected = length smoothed -> (peakIdx < length smoothed)%nat ->
  exists e, interpolatePeakPotential smoothed corrected peakIdx = Ok e.
Proof.
  intros Hlen Hp. unfold interpolatePeakPotential.
  destruct (readPoint_in_range smoothed (Z.of_nat peakIdx) ltac:(lia)) as [c Hc].
  destruct ((peakIdx <=? 0)%nat || (length corrected - 1 <=? peakIdx)%nat) eqn:Hedge.
  - rewrite Hc. eexists. reflexivity.
  - apply orb_false_elim in Hedge as [H0 H1].
    apply Nat.leb_gt in H0. apply Nat.leb_gt in H1.
    cbv zeta. destruct (Qltb _ 1e-30).
    + rewrite Hc. eexists. reflexivity.
    + destruct (readPoint_in_range smoothed (Z.of_nat peakIdx - 1) ltac:(lia)) as [l Hl].
      destruct (readPoint_in_range smoothed (Z.of_nat peakIdx + 1) ltac:(lia)) as [r Hr].
      rewrite Hl, Hc, Hr. cbn [bind].
      destruct (Qgeb _ 0); eexists; reflexivity.
Qed.

Lemma peakRecords_return (smoothed baseline : list DataPoint) (corrected : list Q)
  (isOxidation : bool) (merged : list Candidate) :
  length corrected = length smoothed ->
  (forall c, In c merged -> (index c < length smoothed)%nat) ->
  exists rs, peakRecords smoothed baseline corrected isOxidation merged = Ok rs.
Proof.
  intros Hlen. induction merged as [|peak merged IH]; intros Hrange.
  - eexists. reflexivity.
  - assert (Hp : (index peak < length smoothed)%nat) by (apply Hrange; left; reflexivity).
    destruct IH as [rs Hrs]; [intros c Hc; apply Hrange; right; exact Hc |].
    cbn [peakRecords]. rewrite Hrs. unfold peakRecord.
    destruct (findPeakBoundaries_range corrected (index peak) isOxidation ltac:(lia))
      as [Hs He].
    destruct (findPeakBoundaries corrected (index peak) isOxidation) as [s e].
    cbn [fst snd] in Hs, He.
    destruct (interpolatePeakPotential_returns smoothed corrected (index peak) Hlen Hp)
      as [pot Hpot].
    destruct (readPoint_in_range smoothed (Z.of_nat (index peak)) ltac:(lia)) as [a Ha].
    destruct (readPoint_in_range smoothed (Z.of_nat s) ltac:(lia)) as [f Hf].
    destruct (readPoint_in_range smoothed (Z.of_nat e) ltac:(lia)) as [l Hl].
    rewrite Hpot. cbn [bind]. rewrite Ha, Hf, Hl. cbn [bind].
    eexists. reflexivity.
Qed.

(** With a corrected signal as long as the smoothed one, every read of
    [findCVPeaks] is in range: it returns. *)
Lemma findCVPeaks_returns (smoothed baseline : list DataPoint) (corrected : list Q)
  (direction : ScanDirection) (threshold : Q) :
  length corrected = length smoothed ->
  exists found, findCVPeaks smoothed baseline corrected direction threshold = Ok found.
Proof.
  intros Hlen. unfold findCVPeaks.
  destruct (length corrected <? 5)%nat; [eexists; reflexivity |].
  cbv zeta.
  match goal with
  | |- context [(length ?c =? 0)%nat] => destruct (length c =? 0)%nat
  end; [eexists; reflexivity |].
  match goal with
  | |- context [peakRecords ?a ?b ?c ?d ?e] =>
      destruct (peakRecords_return a b c d e Hlen) as [rs Hrs]
  end.
  - intros c Hc.
    apply mergePeaks_from, sortBy_In, filter_In in Hc as [Hc _].
    apply in_map_iff in Hc as [[i mag] [<- Hc]]. cbn [index fst].
    apply in_flat_map in Hc as [j [Hj Hc]].
    apply in_seq in Hj.
    assert (i = j) as ->.
    { destruct direction;
        match type of Hc with
        | In _ (if ?b then _ else _) => destruct b
        end; simpl in Hc; intuition congruence. }
    lia.
  - rewrite Hrs. eexists. reflexivity.
Qed.

Variable Math_sqrt : Q -> Q.
Variable validateSmoothingQuality : list Q -> list Q -> list string.
Variable validateDerivativeQuality : list Q -> Q -> list string.

(** [analyzeCVScan] never throws. *)
Lemma analyzeCVScan_returns (scanData : list DataPoint) (config : AnalysisConfig)
  (direction : ScanDirection) :
  exists res,
    analyzeCVScan Math_sqrt validateSmoothingQuality validateDerivativeQuality
                  scanData config direction = Ok res.
Proof.
  unfold analyzeCVScan.
  destruct (length scanData =? 0)%nat; [eexists; reflexivity |].
  destruct (if smoothingEnabled config then _ else _) as [smoothed0 warnings1].
  destruct (match Derivative.calculateDerivative validateDerivativeQuality smoothed0 config
            with Ok _ => _ | Throw _ => _ end) as [derivative0 warnings2].
  destruct (match Baseline.computeBaseline Math_sqrt smoothed0 direction config
            with Ok _ => _ | Throw _ => _ end) as [baseline0 warnings3].
  cbv zeta.
  destruct (findCVPeaks_returns smoothed0 baseline0
              (imap (fun i p => current p - baselineAt baseline0 i) smoothed0)
              direction (peakProminenceThreshold config)) as [found Hfound].
  { apply length_imap. }
  rewrite Hfound. eexists. reflexivity.
Qed.

End Returns.

(** ** Smoothing Stage: the optional fields are dropped *)

Section SmoothedScan.

Import CVAnalysis.

Variable Math_sqrt : Q -> Q.
Variable validateSmoothingQuality : list Q -> list Q -> list string.
Variable validateDerivativeQuality : list Q -> Q -> list string.

Lemma convolve_ok (data kernel : list Q) (edge : Convolution.EdgeHandling) :
  data <> [] -> kernel <> [] ->
  exists r, Convolution.convolve data kernel edge = Ok r.
Proof.
  intros Hd Hk. unfold Convolution.convolve.
  destruct data; [congruence |]. destruct kernel; [congruence |].
  simpl. eexists. reflexivity.
Qed.

Lemma smoothing_kernel_available (w : Z) :
  In w supportedWindows ->
  exists kernel, Kernels.getNormalizedSmoothingKernel w = Ok kernel /\ kernel <> [].
Proof.
  unfold supportedWindows. simpl. intros Hw.
  repeat (destruct Hw as [<- | Hw];
          [eexists; split; [vm_compute; reflexivity | discriminate] |]).
  destruct Hw.
Qed.

Lemma smoothing_kernel_unavailable (w : Z) :
  ~ In w supportedWindows ->
  exists msg, Kernels.getNormalizedSmoothingKernel w = Throw msg.
Proof.
  intros Hw. unfold Kernels.getNormalizedSmoothingKernel.
  destruct (Kernels.SG_KERNEL_REGISTRY !! w) as [set |] eqn:Hset.
  - elim Hw. apply registry_keys. eexists. exact Hset.
  - eexists. reflexivity.
Qed.

(** On a non-empty scan the [try] block of [applySmoothing] completes
    exactly when the window has a registry entry; its output then is built
    from object literals [{ potential, current }]. *)
Lemma applySmoothing_success (data : list DataPoint) (config : AnalysisConfig) :
  data <> [] ->
  In (smoothingWindow config) supportedWindows ->
  exists r,
    Smoothing.applySmoothing validateSmoothingQuality data config = Ok r
    /\ Smoothing.coefficients (Smoothing.kernelInfo r) <> []
    /\ Smoothing.smoothedData r
       = imap (fun index point =>
                 bare (potential point)
                      (match nth_error (Smoothing.smoothedCurrent r) index with
                       | Some v => v
                       | None => current point
                       end))
              data.
Proof.
  intros Hdata Hw.
  destruct (smoothing_kernel_available _ Hw) as [kernel [Hkernel Hne]].
  destruct (convolve_ok (map (fun point => current point) data) kernel
              Convolution.mirror) as [conv Hconv].
  { destruct data; [congruence | discriminate]. }
  { exact Hne. }
  unfold Smoothing.applySmoothing.
  destruct data as [|d rest]; [congruence |].
  cbn [length Nat.eqb]. cbv zeta.
  rewrite Hkernel. cbn [bind]. rewrite Hconv. cbn [bind].
  eexists. split; [reflexivity |].
  cbn [Smoothing.kernelInfo Smoothing.coefficients Smoothing.smoothedData
       Smoothing.smoothedCurrent].
  split; [exact Hne | reflexivity].
Qed.

Lemma bare_imap_fields (f : nat -> DataPoint -> Q) (data : list DataPoint) :
  Forall2 (fun d s =>
             potential s = potential d
             /\ time s = None /\ appliedPotential s = None /\ scan s = None
             /\ pointIndex s = None /\ qPlus s = None /\ qMinus s = None)
          data (imap (fun i p => bare (potential p) (f i p)) data).
Proof.
  apply Forall2_imap_self. intros i d _. simpl. tauto.
Qed.

Lemma hasTime_bare_imap (f : nat -> DataPoint -> Q) (data : list DataPoint) :
  hasTime (imap (fun i p => bare (potential p) (f i p)) data) = false.
Proof.
  destruct data as [|d rest]; reflexivity.
Qed.

(** The stages of [analyzeCVScan] on a non-empty scan: which sequence is
    analysed, and that the peaks are those of [findCVPeaks] on it. *)
Lemma analyzeCVScan_stages (scanData : list DataPoint) (config : AnalysisConfig)
  (direction : ScanDirection) (res : CVScanResult) :
  scanData <> [] ->
  analyzeCVScan Math_sqrt validateSmoothingQuality validateDerivativeQuality
                scanData config direction = Ok res ->
  smoothed res
  = (if smoothingEnabled config then
       match Smoothing.applySmoothing validateSmoothingQuality scanData config with
       | Ok smoothingResult => Smoothing.smoothedData smoothingResult
       | Throw _ => scanData
       end
     else scanData)
  /\ findCVPeaks (smoothed res) (baseline res)
       (imap (fun i p => current p - baselineAt (baseline res) i) (smoothed res))
       direction (peakProminenceThreshold config)
     = Ok (peaks res).
Proof.
  intros Hdata. unfold analyzeCVScan.
  destruct scanData as [|d rest]; [congruence |].
  cbn [length Nat.eqb].
  set (sm := if smoothingEnabled config then _ else _).
  assert (Hsm : fst sm
                = if smoothingEnabled config then
                    match Smoothing.applySmoothing validateSmoothingQuality
                            (d :: rest) config with
                    | Ok smoothingResult => Smoothing.smoothedData smoothingResult
                    | Throw _ => d :: rest
                    end
                  else d :: rest).
  { unfold sm. destruct (smoothingEnabled config); [| reflexivity].
    destruct (Smoothing.applySmoothing validateSmoothingQuality (d :: rest) config);
      reflexivity. }
  destruct sm as [smoothed0 warnings1]. simpl in Hsm.
  destruct (match Derivative.calculateDerivative validateDerivativeQuality smoothed0 config
            with Ok _ => _ | Throw _ => _ end) as [derivative0 warnings2].
  destruct (match Baseline.computeBaseline Math_sqrt smoothed0 direction config
            with Ok _ => _ | Throw _ => _ end) as [baseline0 warnings3].
  cbv zeta.
  destruct (findCVPeaks smoothed0 baseline0 _ direction (peakProminenceThreshold config))
    as [found |] eqn:Hfound; cbn [bind]; [| discriminate].
  intros [= <-]. cbn [smoothed baseline peaks].
  split; [exact Hsm | exact Hfound].
Qed.

(** C5.  On a non-empty scan whose smoothing succeeds, the smoothed samples
    carry only potential and current (time, appliedPotential and the other
    optional fields are absent).  Hence, with smoothing enabled, the peak
    analyzer finds no time on the smoothed data: every reported peak has
    unit V.A and an area integrated over potential, whatever time values
    the raw samples carried. *)
Theorem smoothing_drops_time (scanData : list DataPoint) (config : AnalysisConfig)
  (direction : ScanDirection)
  (Hdata : scanData <> [])
  (Hwindow : In (smoothingWindow config) supportedWindows) :
  exists r,
    Smoothing.applySmoothing validateSmoothingQuality scanData config = Ok r
    /\ Smoothing.coefficients (Smoothing.kernelInfo r) <> []
    /\ Forall2 (fun d s =>
                  potential s = potential d
                  /\ time s = None /\ appliedPotential s = None /\ scan s = None
                  /\ pointIndex s = None /\ qPlus s = None /\ qMinus s = None)
               scanData (Smoothing.smoothedData r)
    /\ (smoothingEnabled config = true ->
        exists res,
          analyzeCVScan Math_sqrt validateSmoothingQuality validateDerivativeQuality
                        scanData config direction = Ok res
          /\ smoothed res = Smoothing.smoothedData r
          /\ hasTime (smoothed res) = false
          /\ Forall (fun pk =>
                       chargeUnit pk = unit_VA
                       /\ CVAnalysis.area pk
                          = integratePeakArea (smoothed res) (baseline res)
                              (startIndex pk) (endIndex pk) false
                       /\ Forall2 (fun i point =>
                                     exists d, nth_error (smoothed res) i = Some d
                                               /\ Integration.x point = potential d)
                            (seq (startIndex pk)
                                 (Nat.min (endIndex pk + 1) (length (smoothed res))
                                  - startIndex pk))
                            (buildIntegrationPoints (smoothed res) (baseline res)
                               (startIndex pk) (endIndex pk) false))
                    (peaks res)).
Proof.
  destruct (applySmoothing_success scanData config Hdata Hwindow)
    as [r [Hr [Hcoef Hsmoothed]]].
  exists r. split; [exact Hr |]. split; [exact Hcoef |]. split.
  { rewrite Hsmoothed. apply bare_imap_fields. }
  intros Henabled.
  destruct (analyzeCVScan_returns Math_sqrt validateSmoothingQuality
              validateDerivativeQuality scanData config direction) as [res Hres].
  exists res. split; [exact Hres |].
  destruct (analyzeCVScan_stages scanData config direction res Hdata Hres)
    as [Hsm Hpeaks].
  rewrite Henabled, Hr in Hsm.
  assert (Hno : hasTime (smoothed res) = false).
  { rewrite Hsm, Hsmoothed. apply hasTime_bare_imap. }
  split; [exact Hsm |]. split; [exact Hno |].
  rewrite List.Forall_forall. intros pk Hpk.
  destruct (findCVPeaks_charge _ _ _ _ _ _ pk Hpeaks Hpk) as [Hunit Harea].
  rewrite Hno in Hunit, Harea.
  split; [exact Hunit |]. split; [exact Harea |].
  apply integration_axis_potential.
Qed.

End SmoothedScan.

Lemma smoothing_drops_time_witness :
  timedScan <> []
  /\ In (smoothingWindow smoothedLinearConfig) supportedWindows
  /\ everyHasTime timedScan = true
  /\ exists res pk,
       CVAnalysis.analyzeCVScan (fun v => v) (fun _ _ => []) (fun _ _ => [])
                                timedScan smoothedLinearConfig forward = Ok res
       /\ CVAnalysis.peaks res = [pk]
       /\ CVAnalysis.chargeUnit pk = CVAnalysis.unit_VA.
Proof.
  assert (Hdata : timedScan <> []) by discriminate.
  assert (Hwindow : In (smoothingWindow smoothedLinearConfig) supportedWindows)
    by (simpl; tauto).
  split; [exact Hdata |]. split; [exact Hwindow |]. split; [reflexivity |].
  destruct (smoothing_drops_time (fun v => v) (fun _ _ => []) (fun _ _ => [])
              timedScan smoothedLinearConfig forward Hdata Hwindow)
    as [r [_ [_ [_ Hpeaks]]]].
  destruct (Hpeaks eq_refl) as [res [Hres [_ [_ Hall]]]].
  assert (Hpk : exists pk, CVAnalysis.peaks res = [pk]).
  { assert (Hval : exists res' pk,
               CVAnalysis.analyzeCVScan (fun v => v) (fun _ _ => []) (fun _ _ => [])
                                        timedScan smoothedLinearConfig forward = Ok res'
               /\ CVAnalysis.peaks res' = [pk]).
    { eexists. eexists. split; [vm_compute; reflexivity | reflexivity]. }
    destruct Hval as [res' [pk [Hres' Hpk]]].
    rewrite Hres in Hres'. injection Hres' as <-. exists pk. exact Hpk. }
  destruct Hpk as [pk Hpk].
  exists res, pk. split; [exact Hres |]. split; [exact Hpk |].
  rewrite Hpk in Hall. inversion Hall as [| ? ? [Hunit _] _]. exact Hunit.
Defined.

(* ===================================================================== *)
(** * Part IV.  Further properties of the pipeline                        *)
(* ===================================================================== *)

(** ** Convolution: errors, bounds and edge modes *)

Section ConvolutionEdges.

Import Convolution.

Lemma fold_seq_ext {A} (F G : A -> nat -> A) (start len : nat) (acc : A) :
  (forall s j, (start <= j < start + len)%nat -> F s j = G s j) ->
  fold_left F (seq start len) acc = fold_left G (seq start len) acc.
Proof.
  revert start acc. induction len as [|len IH]; intros start acc Hstep; simpl.
  - reflexivity.
  - rewrite Hstep by lia. apply IH. intros s j Hj. apply Hstep. lia.
Qed.

Lemma convolve_result (data kernel : list Q) (edge : EdgeHandling) (r : ConvolutionResult) :
  convolve data kernel edge = Ok r ->
  data <> [] /\ kernel <> []
  /\ edgeHandling r = edge
  /\ result r
     = map (fun i : nat =>
              fold_left
                (fun sum (j : nat) =>
                   sum + getDataValue data
                           (Z.of_nat i - Z.of_nat (length kernel) / 2 + Z.of_nat j) edge
                         * at_ kernel j)
                (seq 0 (length kernel)) 0)
           (seq 0 (length data)).
Proof.
  unfold convolve.
  destruct data as [|d data]; [discriminate |].
  destruct kernel as [|k kernel]; [discriminate |].
  cbn [length Nat.eqb]. cbv zeta. intros [= <-].
  cbn [edgeHandling result]. rewrite map_id.
  repeat split; discriminate.
Qed.


(** X2.  On non-empty data [getDataValue] always returns one of the
    samples, whatever the index and the edge mode: reflected and clamped
    indices never leave the array. *)
Theorem getDataValue_reads_a_sample (data : list Q) (index : Z) (edge : EdgeHandling)
  (Hdata : data <> []) :
  In (getDataValue data index edge) data.
Proof.
  apply (getDataValue_in_range (fun v => In v data)); [exact Hdata |].
  apply List.Forall_forall. auto.
Qed.

Lemma getDataValue_reads_a_sample_witness :
  In (getDataValue [1; 2; 3] (-7) mirror) [1; 2; 3].
Proof.
  apply (getDataValue_reads_a_sample [1; 2; 3] (-7) mirror). discriminate.
Defined.

Lemma getDataValue_inside (data : list Q) (index : Z) (edge : EdgeHandling) :
  (0 <= index < Z.of_nat (length data))%Z ->
  getDataValue data index edge = at_ data (Z.to_nat index).
Proof.
  intros Hi. unfold getDataValue.
  destruct (Z.leb_spec 0 index); [| lia].
  destruct (Z.ltb_spec index (Z.of_nat (length data))); [| lia].
  reflexivity.
Qed.

(** X3.  The edge mode only matters within half a kernel of the ends: at a
    position whose whole window lies inside the data, the three edge modes
    give the same output. *)
Theorem convolve_interior_ignores_edge_mode (data kernel : list Q)
  (edge1 edge2 : EdgeHandling) (r1 r2 : ConvolutionResult) (i : nat)
  (H1 : convolve data kernel edge1 = Ok r1)
  (H2 : convolve data kernel edge2 = Ok r2)
  (Hlow : (length kernel / 2 <= i)%nat)
  (Hhigh : (i + (length kernel - 1 - length kernel / 2) < length data)%nat) :
  at_ (result r1) i = at_ (result r2) i.
Proof.
  apply convolve_result in H1 as [_ [_ [_ ->]]].
  apply convolve_result in H2 as [_ [_ [_ ->]]].
  assert (Hi : (i < length data)%nat) by lia.
  rewrite !at_map_seq by exact Hi.
  apply fold_seq_ext. intros s j Hj.
  assert (Hhalf : (Z.of_nat (length kernel) / 2)%Z = Z.of_nat (length kernel / 2))
    by (rewrite Nat2Z.inj_div; reflexivity).
  rewrite !getDataValue_inside by (rewrite Hhalf; lia).
  reflexivity.
Qed.

Lemma convolve_interior_ignores_edge_mode_witness :
  exists r1 r2,
    convolve [1; 2; 4; 8; 16] [1; 1; 1] mirror = Ok r1
    /\ convolve [1; 2; 4; 8; 16] [1; 1; 1] extend = Ok r2
    /\ at_ (result r1) 2 = at_ (result r2) 2
    /\ at_ (result r1) 0 <> at_ (result r2) 0.
Proof.
  eexists. eexists.
  split; [reflexivity |]. split; [reflexivity |]. split.
  - apply (convolve_interior_ignores_edge_mode [1; 2; 4; 8; 16] [1; 1; 1] mirror extend
             _ _ 2%nat eq_refl eq_refl); simpl; lia.
  - vm_compute. discriminate.
Defined.


End ConvolutionEdges.

(** ** Kernel table, smoothing and derivative stages: errors and fallbacks *)

Section StageFallbacks.

Import CVAnalysis.

Variable Math_sqrt : Q -> Q.
Variable validateSmoothingQuality : list Q -> list Q -> list string.
Variable validateDerivativeQuality : list Q -> Q -> list string.



Lemma kernel_lookup_none (w : Z) :
  ~ In w supportedWindows ->
  Kernels.getNormalizedSmoothingKernel w
  = Throw (String.append "No smoothing kernel available for window size " (pretty w))
  /\ Kernels.getDerivativeKernel w
     = Throw (String.append "No derivative kernel available for window size " (pretty w)).
Proof.
  intros Hw.
  unfold Kernels.getNormalizedSmoothingKernel, Kernels.getDerivativeKernel.
  destruct (Kernels.SG_KERNEL_REGISTRY !! w) as [set |] eqn:Hset.
  - elim Hw. apply registry_keys. eexists. exact Hset.
  - split; reflexivity.
Qed.

(** X4.  A window size outside 5, 9, 11, 15, 21 is a missing key of the
    registry: both kernel getters throw, naming the window; for the five
    supported sizes both return a kernel with as many coefficients as the
    window. *)
Theorem kernel_lookup_throws_on_unsupported_window (w : Z) :
  (~ In w supportedWindows ->
   Kernels.getNormalizedSmoothingKernel w
   = Throw (String.append "No smoothing kernel available for window size " (pretty w))
   /\ Kernels.getDerivativeKernel w
      = Throw (String.append "No derivative kernel available for window size " (pretty w)))
  /\ (In w supportedWindows ->
      exists smooth deriv,
        Kernels.getNormalizedSmoothingKernel w = Ok smooth
        /\ Kernels.getDerivativeKernel w = Ok deriv
        /\ Z.of_nat (length smooth) = w /\ Z.of_nat (length deriv) = w).
Proof.
  split.
  - apply kernel_lookup_none.
  - unfold supportedWindows. simpl. intros Hw.
    repeat (destruct Hw as [<- | Hw];
            [eexists; eexists; split; [vm_compute; reflexivity |];
             split; [vm_compute; reflexivity |]; split; reflexivity |]).
    destruct Hw.
Qed.

(** X5.  [applySmoothing] throws on an empty scan and on nothing else: for
    every non-empty scan and every configuration it returns, and the
    smoothed sequence is aligned with the input (same length, same
    potentials), as is the smoothed current array. *)
Theorem applySmoothing_returns_aligned (data : list DataPoint) (config : AnalysisConfig) :
  (data = [] ->
   Smoothing.applySmoothing validateSmoothingQuality data config
   = Throw "Data must be a non-empty array")
  /\ (data <> [] ->
      exists r,
        Smoothing.applySmoothing validateSmoothingQuality data config = Ok r
        /\ length (Smoothing.smoothedCurrent r) = length data
        /\ Forall2 (fun d s => potential s = potential d) data (Smoothing.smoothedData r)).
Proof.
  split; [intros ->; reflexivity |].
  intros Hdata. unfold Smoothing.applySmoothing.
  destruct data as [|d0 rest]; [congruence |].
  cbn [length Nat.eqb]. cbv zeta.
  destruct (Kernels.getNormalizedSmoothingKernel (smoothingWindow config))
    as [kernel | msg]; cbn [bind].
  - destruct (Convolution.convolve (map (fun point => current point) (d0 :: rest)) kernel
                Convolution.mirror) as [conv | msg] eqn:Hconv; cbn [bind].
    + eexists. split; [reflexivity |].
      cbn [Smoothing.smoothedCurrent Smoothing.smoothedData].
      apply convolve_result in Hconv as [_ [_ [_ Hres]]].
      split.
      * rewrite Hres, length_map, length_seq, length_map. reflexivity.
      * apply Forall2_imap_self. intros i d _. reflexivity.
    + eexists. split; [reflexivity |].
      cbn [Smoothing.smoothedCurrent Smoothing.smoothedData].
      split; [apply length_map |].
      apply Forall2_lookup. intros i. destruct ((d0 :: rest) !! i); constructor. reflexivity.
  - eexists. split; [reflexivity |].
    cbn [Smoothing.smoothedCurrent Smoothing.smoothedData].
    split; [apply length_map |].
    apply Forall2_lookup. intros i. destruct ((d0 :: rest) !! i); constructor. reflexivity.
Qed.

(** X6.  With a window size that has no kernel, [applySmoothing] does not
    throw: it hands back the input samples themselves (optional fields
    included), their currents, no kernel coefficients, and ends its warnings
    with the failure message. *)
Theorem applySmoothing_falls_back_to_input (data : list DataPoint) (config : AnalysisConfig)
  (Hdata : data <> [])
  (Hwindow : ~ In (smoothingWindow config) supportedWindows) :
  exists r,
    Smoothing.applySmoothing validateSmoothingQuality data config = Ok r
    /\ Smoothing.smoothedData r = data
    /\ Smoothing.smoothedCurrent r = map current data
    /\ Smoothing.coefficients (Smoothing.kernelInfo r) = []
    /\ last (Smoothing.warnings r)
       = Some (String.append "Smoothing failed: "
                 (String.append "No smoothing kernel available for window size "
                                (pretty (smoothingWindow config)))).
Proof.
  destruct (kernel_lookup_none _ Hwindow) as [Hnone _].
  unfold Smoothing.applySmoothing.
  destruct data as [|d0 rest]; [congruence |].
  cbn [length Nat.eqb]. cbv zeta. rewrite Hnone. cbn [bind].
  eexists. split; [reflexivity |].
  cbn [Smoothing.smoothedData Smoothing.smoothedCurrent Smoothing.kernelInfo
       Smoothing.coefficients Smoothing.warnings].
  repeat (split; [reflexivity |]).
  apply last_snoc.
Qed.


Lemma sortInsert_length {A} (cmp : A -> A -> Q) (x : A) (l : list A) :
  length (sortInsert cmp x l) = S (length l).
Proof.
  induction l as [|y l IH]; simpl; [reflexivity |].
  destruct (Qleb (cmp x y) 0); simpl; [reflexivity | rewrite IH; reflexivity].
Qed.

Lemma sortBy_length {A} (cmp : A -> A -> Q) (l : list A) :
  length (sortBy cmp l) = length l.
Proof.
  unfold sortBy. induction l as [|x l IH]; simpl; [reflexivity |].
  rewrite sortInsert_length, IH. reflexivity.
Qed.

(** X8.  The potential spacing used to scale the derivative is always
    strictly positive (the median of the positive spacings, or 1 when there
    is none), so the scale factor never vanishes through it. *)
Theorem calculatePotentialSpacing_positive (data : list DataPoint) :
  0 < Derivative.calculatePotentialSpacing data.
Proof.
  unfold Derivative.calculatePotentialSpacing.
  destruct (length data <? 2)%nat; [reflexivity |]. cbv zeta.
  set (spacings := flat_map _ _).
  assert (Hpos : forall v, In v spacings -> 0 < v).
  { intros v Hv. unfold spacings in Hv. apply in_flat_map in Hv as [i [_ Hv]].
    cbv zeta in Hv.
    destruct (Qgtb _ 0) eqn:Hgt; [| destruct Hv].
    destruct Hv as [<- | []].
    unfold Qgtb, Qltb in Hgt. apply negb_true_iff in Hgt.
    destruct (Qlt_le_dec 0 (Qabs (potential (nth i data (bare 0 0))
                                  - potential (nth (i - 1) data (bare 0 0))))) as [H | H];
      [exact H |].
    apply Qle_bool_iff in H. congruence. }
  destruct (length spacings =? 0)%nat eqn:Hlen; [reflexivity |].
  apply Nat.eqb_neq in Hlen.
  assert (Hat : forall k, (k < length spacings)%nat ->
                          0 < at_ (sortBy (fun a b => a - b) spacings) k).
  { intros k Hk. apply Hpos. apply (sortBy_In (fun a b => a - b)).
    apply nth_In. rewrite sortBy_length. exact Hk. }
  rewrite sortBy_length.
  assert (Hmid : (length spacings / 2 < length spacings)%nat)
    by (apply Nat.div_lt; lia).
  destruct (length spacings mod 2 =? 0)%nat.
  - assert (H1 := Hat (length spacings / 2 - 1)%nat ltac:(lia)).
    assert (H2 := Hat (length spacings / 2)%nat Hmid).
    apply Qlt_shift_div_l; [reflexivity | lra].
  - apply Hat. exact Hmid.
Qed.

(** X9.  [calculateDerivative] throws on an empty scan only.  On a
    non-empty one it returns a derivative aligned with the input, and when
    the window size has no kernel that derivative is all zeros. *)
Theorem calculateDerivative_returns_aligned (data : list DataPoint)
  (config : AnalysisConfig) :
  (data = [] ->
   Derivative.calculateDerivative validateDerivativeQuality data config
   = Throw "Data must be a non-empty array")
  /\ (data <> [] ->
      exists r,
        Derivative.calculateDerivative validateDerivativeQuality data config = Ok r
        /\ length (Derivative.derivativeCurrent r) = length data
        /\ Forall2 (fun d s => potential s = potential d) data (Derivative.derivativeData r)
        /\ (~ In (smoothingWindow config) supportedWindows ->
            Derivative.derivativeCurrent r = repeat 0 (length data)
            /\ Derivative.kernelCoefficients r = [])).
Proof.
  split; [intros ->; reflexivity |].
  intros Hdata. unfold Derivative.calculateDerivative.
  destruct data as [|d0 rest]; [congruence |].
  cbn [length Nat.eqb]. cbv zeta.
  destruct (Kernels.getDerivativeKernel (smoothingWindow config))
    as [kernel | msg] eqn:Hkernel; cbn [bind].
  - destruct (Convolution.convolve (map (fun point => current point) (d0 :: rest)) kernel
                Convolution.mirror) as [conv | msg] eqn:Hconv; cbn [bind].
    + eexists. split; [reflexivity |].
      cbn [Derivative.derivativeCurrent Derivative.derivativeData
           Derivative.kernelCoefficients].
      apply convolve_result in Hconv as [_ [_ [_ Hres]]].
      split; [| split].
      * rewrite Hres, !length_map, length_seq. reflexivity.
      * apply Forall2_imap_self. intros i d _. reflexivity.
      * intros Hw. destruct (kernel_lookup_none _ Hw) as [_ Hnone]. congruence.
    + eexists. split; [reflexivity |].
      cbn [Derivative.derivativeCurrent Derivative.derivativeData
           Derivative.kernelCoefficients].
      split; [apply repeat_length |]. split; [| auto].
      apply Forall2_map_self. reflexivity.
  - eexists. split; [reflexivity |].
    cbn [Derivative.derivativeCurrent Derivative.derivativeData
         Derivative.kernelCoefficients].
    split; [apply repeat_length |]. split; [| auto].
    apply Forall2_map_self. reflexivity.
Qed.


End StageFallbacks.


Lemma applySmoothing_falls_back_to_input_witness :
  exists r,
    Smoothing.applySmoothing (fun _ _ => []) partialTimeScan unsupportedWindowConfig = Ok r
    /\ Smoothing.smoothedData r = partialTimeScan
    /\ Smoothing.smoothedCurrent r = map current partialTimeScan
    /\ Smoothing.coefficients (Smoothing.kernelInfo r) = []
    /\ last (Smoothing.warnings r)
       = Some (String.append "Smoothing failed: "
                 (String.append "No smoothing kernel available for window size "
                                (pretty (smoothingWindow unsupportedWindowConfig)))).
Proof.
  apply (applySmoothing_falls_back_to_input (fun _ _ => []) partialTimeScan
           unsupportedWindowConfig).
  - discriminate.
  - simpl. intros H. repeat (destruct H as [H | H]; [discriminate H |]). exact H.
Defined.


(** ** Baseline estimators: range, alignment and failure *)

Section BaselineBehaviour.

Import Baseline.















End BaselineBehaviour.

(** ** Baselines: least squares, endpoint fallback, alignment *)

Section BaselineFits.

Import Baseline.




Lemma Qltb_false_iff (a b : Q) : Qltb a b = false <-> b <= a.
Proof.
  unfold Qltb. rewrite negb_false_iff. apply Qle_bool_iff.
Qed.









End BaselineFits.


(** ** Orchestrator: stages, alignment and recovery *)

Section Orchestration.

Import CVAnalysis.

Variable Math_sqrt : Q -> Q.
Variable validateSmoothingQuality : list Q -> list Q -> list string.
Variable validateDerivativeQuality : list Q -> Q -> list string.


Lemma buildEndpointBaseline_potentials (data : list DataPoint) :
  Forall2 (fun d p => potential p = potential d) data (buildEndpointBaseline data).
Proof.
  unfold buildEndpointBaseline.
  destruct (length data <? 2)%nat; [apply Forall2_map_self; reflexivity |].
  cbv zeta. destruct (Qltb _ 1e-10); apply Forall2_map_self; reflexivity.
Qed.


Lemma computeBaseline_potentials (data : list DataPoint) (direction : ScanDirection)
  (config : AnalysisConfig) (baseline : list DataPoint) :
  Baseline.computeBaseline Math_sqrt data direction config = Ok baseline ->
  Forall2 (fun d p => potential p = potential d) data baseline.
Proof.
  unfold Baseline.computeBaseline.
  destruct (baselineMethod config).
  - intros [= <-]. unfold Baseline.rubberbandBaseline.
    destruct (length data <? 3)%nat; [apply Forall2_map_self; reflexivity |].
    cbv zeta. apply Forall2_imap_self. reflexivity.
  - unfold Baseline.linearBaseline.
    destruct (length data <? 3)%nat.
    + intros [= <-]. apply Forall2_map_self. reflexivity.
    + cbv zeta.
      destruct (Baseline.readPoints data _) as [head |]; cbn [bind]; [| discriminate].
      destruct (Baseline.readPoints data _) as [tail |]; cbn [bind]; [| discriminate].
      destruct (Baseline.leastSquares _) as [slope intercept].
      intros [= <-]. apply Forall2_map_self. reflexivity.
  - intros [= <-]. unfold Baseline.aslsBaseline. cbv zeta.
    destruct (length data <? 5)%nat; [apply Forall2_map_self; reflexivity |].
    apply Forall2_imap_self. reflexivity.
Qed.

Lemma smoothing_stage_aligned (data : list DataPoint) (config : AnalysisConfig) :
  data <> [] ->
  exists r,
    Smoothing.applySmoothing validateSmoothingQuality data config = Ok r
    /\ Forall2 (fun d s => potential s = potential d) data (Smoothing.smoothedData r).
Proof.
  intros Hdata. unfold Smoothing.applySmoothing.
  destruct data as [|d0 rest]; [congruence |].
  cbn [length Nat.eqb]. cbv zeta.
  destruct (Kernels.getNormalizedSmoothingKernel (smoothingWindow config))
    as [kernel | msg]; cbn [bind].
  - destruct (Convolution.convolve _ kernel Convolution.mirror) as [conv | msg];
      cbn [bind]; eexists; (split; [reflexivity |]); cbn [Smoothing.smoothedData].
    + apply Forall2_imap_self. reflexivity.
    + apply Forall2_lookup. intros i. destruct ((d0 :: rest) !! i); constructor. reflexivity.
  - eexists. split; [reflexivity |]. cbn [Smoothing.smoothedData].
    apply Forall2_lookup. intros i. destruct ((d0 :: rest) !! i); constructor. reflexivity.
Qed.

Lemma derivative_stage_length (data : list DataPoint) (config : AnalysisConfig) :
  data <> [] ->
  exists r,
    Derivative.calculateDerivative validateDerivativeQuality data config = Ok r
    /\ length (Derivative.derivativeCurrent r) = length data.
Proof.
  intros Hdata. unfold Derivative.calculateDerivative.
  destruct data as [|d0 rest]; [congruence |].
  cbn [length Nat.eqb]. cbv zeta.
  destruct (Kernels.getDerivativeKernel (smoothingWindow config))
    as [kernel | msg]; cbn [bind].
  - destruct (Convolution.convolve _ kernel Convolution.mirror) as [conv | msg] eqn:Hconv;
      cbn [bind]; eexists; (split; [reflexivity |]); cbn [Derivative.derivativeCurrent].
    + apply convolve_result in Hconv as [_ [_ [_ ->]]].
      rewrite !length_map, length_seq. reflexivity.
    + apply repeat_length.
  - eexists. split; [reflexivity |]. apply repeat_length.
Qed.

(** Every field of the result of [analyzeCVScan] on a non-empty scan, stage
    by stage. *)
Lemma analyzeCVScan_fields (scanData : list DataPoint) (config : AnalysisConfig)
  (direction : ScanDirection) (res : CVScanResult) :
  scanData <> [] ->
  analyzeCVScan Math_sqrt validateSmoothingQuality validateDerivativeQuality
                scanData config direction = Ok res ->
  smoothed res
  = (if smoothingEnabled config then
       match Smoothing.applySmoothing validateSmoothingQuality scanData config with
       | Ok smoothingResult => Smoothing.smoothedData smoothingResult
       | Throw _ => scanData
       end
     else scanData)
  /\ derivative res
     = match Derivative.calculateDerivative validateDerivativeQuality (smoothed res) config
       with
       | Ok derivativeResult => Derivative.derivativeCurrent derivativeResult
       | Throw _ => repeat 0 (length (smoothed res))
       end
  /\ baseline res
     = match Baseline.computeBaseline Math_sqrt (smoothed res) direction config with
       | Ok b => b
       | Throw _ => buildEndpointBaseline (smoothed res)
       end
  /\ findCVPeaks (smoothed res) (baseline res)
       (imap (fun i p => current p - baselineAt (baseline res) i) (smoothed res))
       direction (peakProminenceThreshold config)
     = Ok (peaks res)
  /\ forall msg,
       Baseline.computeBaseline Math_sqrt (smoothed res) direction config = Throw msg ->
       last (warnings res)
       = Some "Baseline fitting failed, using endpoint interpolation"%string.
Proof.
  intros Hdata. unfold analyzeCVScan.
  destruct scanData as [|d rest]; [congruence |].
  cbn [length Nat.eqb].
  set (sm := if smoothingEnabled config then _ else _).
  assert (Hsm : fst sm
                = if smoothingEnabled config then
                    match Smoothing.applySmoothing validateSmoothingQuality
                            (d :: rest) config with
                    | Ok smoothingResult => Smoothing.smoothedData smoothingResult
                    | Throw _ => d :: rest
                    end
                  else d :: rest).
  { unfold sm. destruct (smoothingEnabled config); [| reflexivity].
    destruct (Smoothing.applySmoothing validateSmoothingQuality (d :: rest) config);
      reflexivity. }
  destruct sm as [smoothed0 warnings1]. simpl in Hsm.
  set (dv := match Derivative.calculateDerivative validateDerivativeQuality smoothed0 config
             with Ok _ => _ | Throw _ => _ end).
  assert (Hdv : fst dv
                = match Derivative.calculateDerivative validateDerivativeQuality
                          smoothed0 config with
                  | Ok derivativeResult => Derivative.derivativeCurrent derivativeResult
                  | Throw _ => repeat 0 (length smoothed0)
                  end).
  { unfold dv. destruct (Derivative.calculateDerivative _ smoothed0 config); reflexivity. }
  destruct dv as [derivative0 warnings2]. simpl in Hdv.
  set (bl := match Baseline.computeBaseline Math_sqrt smoothed0 direction config
             with Ok _ => _ | Throw _ => _ end).
  assert (Hbl : fst bl
                = match Baseline.computeBaseline Math_sqrt smoothed0 direction config with
                  | Ok b => b
                  | Throw _ => buildEndpointBaseline smoothed0
                  end
                /\ forall msg,
                     Baseline.computeBaseline Math_sqrt smoothed0 direction config
                     = Throw msg ->
                     snd bl = ["Baseline fitting failed, using endpoint interpolation"%string]).
  { unfold bl. destruct (Baseline.computeBaseline Math_sqrt smoothed0 direction config);
      split; try reflexivity; discriminate. }
  destruct bl as [baseline0 warnings3]. cbn [fst snd] in Hbl. destruct Hbl as [Hbl Hw3].
  cbv zeta.
  destruct (findCVPeaks smoothed0 baseline0 _ direction (peakProminenceThreshold config))
    as [found |] eqn:Hfound; cbn [bind]; [| discriminate].
  intros [= <-]. cbn [smoothed derivative baseline peaks warnings].
  repeat (split; [assumption |]).
  intros msg Hmsg. rewrite (Hw3 msg Hmsg).
  rewrite app_assoc. apply last_snoc.
Qed.

Lemma analyzeCVScan_aligned (scanData : list DataPoint) (config : AnalysisConfig)
  (direction : ScanDirection) (res : CVScanResult) :
  analyzeCVScan Math_sqrt validateSmoothingQuality validateDerivativeQuality
                scanData config direction = Ok res ->
  length (smoothed res) = length scanData
  /\ length (derivative res) = length scanData
  /\ length (baseline res) = length scanData
  /\ Forall2 (fun d s => potential s = potential d) scanData (smoothed res)
  /\ Forall2 (fun d b => potential b = potential d) scanData (baseline res).
Proof.
  intros Hres.
  destruct scanData as [|d0 rest] eqn:Edata.
  { injection Hres as <-. simpl. repeat split; constructor. }
  rewrite <- Edata in *.
  assert (Hdata : scanData <> []) by (rewrite Edata; discriminate).
  destruct (analyzeCVScan_fields scanData config direction res Hdata Hres)
    as [Hsm [Hdv [Hbl _]]].
  assert (Hsmooth : Forall2 (fun d s => potential s = potential d) scanData (smoothed res)).
  { rewrite Hsm. destruct (smoothingEnabled config).
    - destruct (smoothing_stage_aligned scanData config Hdata) as [r [-> Hr]]. exact Hr.
    - apply Forall2_lookup. intros i. destruct (scanData !! i); constructor. reflexivity. }
  assert (Hlen : length (smoothed res) = length scanData)
    by (symmetry; eapply Forall2_length; exact Hsmooth).
  assert (Hne : smoothed res <> []).
  { intros H0. rewrite H0, Edata in Hlen. discriminate Hlen. }
  assert (Hbase : Forall2 (fun d b => potential b = potential d)
                          (smoothed res) (baseline res)).
  { rewrite Hbl.
    destruct (Baseline.computeBaseline Math_sqrt (smoothed res) direction config) eqn:Hb.
    - eapply computeBaseline_potentials. exact Hb.
    - apply buildEndpointBaseline_potentials. }
  split; [exact Hlen |]. split.
  { rewrite Hdv.
    destruct (derivative_stage_length (smoothed res) config Hne) as [r [-> Hr]].
    rewrite Hr. exact Hlen. }
  split.
  { rewrite <- Hlen. symmetry. eapply Forall2_length. exact Hbase. }
  split; [exact Hsmooth |].
  apply Forall2_lookup. intros i.
  apply (proj1 (Forall2_lookup _ _ _)) with (i := i) in Hsmooth.
  apply (proj1 (Forall2_lookup _ _ _)) with (i := i) in Hbase.
  destruct (scanData !! i), (smoothed res !! i), (baseline res !! i);
    inversion Hsmooth; inversion Hbase; constructor; congruence.
Qed.

(** X16.  [analyzeCVScan] never throws, and every sequence of its result is
    aligned with the input: smoothed, derivative and baseline all have the
    input's length, and smoothed and baseline keep the input's potentials. *)
Theorem analyzeCVScan_returns_aligned_sequences (scanData : list DataPoint)
  (config : AnalysisConfig) (direction : ScanDirection) :
  exists res,
    analyzeCVScan Math_sqrt validateSmoothingQuality validateDerivativeQuality
                  scanData config direction = Ok res
    /\ length (smoothed res) = length scanData
    /\ length (derivative res) = length scanData
    /\ length (baseline res) = length scanData
    /\ Forall2 (fun d s => potential s = potential d) scanData (smoothed res)
    /\ Forall2 (fun d b => potential b = potential d) scanData (baseline res).
Proof.
  destruct (analyzeCVScan_returns Math_sqrt validateSmoothingQuality
              validateDerivativeQuality scanData config direction) as [res Hres].
  exists res. split; [exact Hres |].
  apply (analyzeCVScan_aligned scanData config direction res Hres).
Qed.


(** X18.  Smoothing that is switched off, or asked for a window size with
    no kernel, leaves the scan as it is: [smoothed] is the input itself,
    optional fields included. *)
Theorem analyzeCVScan_passes_raw_scan_through (scanData : list DataPoint)
  (config : AnalysisConfig) (direction : ScanDirection)
  (Hraw : smoothingEnabled config = false
          \/ ~ In (smoothingWindow config) supportedWindows) :
  exists res,
    analyzeCVScan Math_sqrt validateSmoothingQuality validateDerivativeQuality
                  scanData config direction = Ok res
    /\ smoothed res = scanData.
Proof.
  destruct (analyzeCVScan_returns Math_sqrt validateSmoothingQuality
              validateDerivativeQuality scanData config direction) as [res Hres].
  exists res. split; [exact Hres |].
  destruct scanData as [|d0 rest] eqn:Edata.
  { injection Hres as <-. reflexivity. }
  rewrite <- Edata in *.
  assert (Hdata : scanData <> []) by (rewrite Edata; discriminate).
  destruct (analyzeCVScan_fields scanData config direction res Hdata Hres) as [Hsm _].
  rewrite Hsm.
  destruct (smoothingEnabled config) eqn:Hen; [| reflexivity].
  destruct Hraw as [Hoff | Hwin]; [discriminate |].
  unfold Smoothing.applySmoothing. rewrite Edata. cbn [length Nat.eqb]. cbv zeta.
  destruct (kernel_lookup_none (smoothingWindow config) Hwin) as [-> _].
  reflexivity.
Qed.

End Orchestration.



Lemma analyzeCVScan_passes_raw_scan_through_witness :
  exists res,
    CVAnalysis.analyzeCVScan (fun v => v) (fun _ _ => []) (fun _ _ => [])
                             partialTimeScan unsupportedWindowConfig forward = Ok res
    /\ CVAnalysis.smoothed res = partialTimeScan.
Proof.
  apply (analyzeCVScan_passes_raw_scan_through (fun v => v) (fun _ _ => []) (fun _ _ => [])
           partialTimeScan unsupportedWindowConfig forward).
  right. vm_compute. intuition discriminate.
Defined.

(** ** Peak analyzer: prominence, boundaries, merging *)

Section PeakShape.

Import CVAnalysis.

Lemma Qltb_true_iff (a b : Q) : Qltb a b = true <-> a < b.
Proof.
  unfold Qltb. split.
  - intros H. apply Qnot_le_lt. intros Hle. apply Qle_bool_iff in Hle.
    rewrite Hle in H. discriminate.
  - intros H. destruct (Qle_bool b a) eqn:Hle; [| reflexivity].
    apply Qle_bool_iff in Hle. lra.
Qed.

Lemma Qleb_false_iff (a b : Q) : Qleb a b = false <-> b < a.
Proof.
  unfold Qleb. split.
  - intros H. apply Qnot_le_lt. intros Hle. apply Qle_bool_iff in Hle. congruence.
  - intros H. destruct (Qle_bool a b) eqn:Hle; [| reflexivity].
    apply Qle_bool_iff in Hle. lra.
Qed.

Lemma valleyWalk_bound (corrected : list Q) (peakVal : Q) (isMax : bool)
  (indices : list nat) (valley : Q) :
  if isMax then valleyWalk corrected peakVal isMax indices valley <= valley
  else valley <= valleyWalk corrected peakVal isMax indices valley.
Proof.
  revert valley. induction indices as [|i rest IH]; intros valley; cbn [valleyWalk].
  - destruct isMax; apply Qle_refl.
  - cbv zeta. destruct isMax.
    + destruct (Qgtb _ _); [apply Q.le_min_l |].
      eapply Qle_trans; [apply IH | apply Q.le_min_l].
    + destruct (Qltb _ _); [apply Q.le_max_l |].
      eapply Qle_trans; [apply Q.le_max_l | apply IH].
Qed.

Lemma valleyWalk_first (corrected : list Q) (peakVal : Q) (isMax : bool)
  (i : nat) (rest : list nat) (valley : Q) :
  if isMax then valleyWalk corrected peakVal isMax (i :: rest) valley <= at_ corrected i
  else at_ corrected i <= valleyWalk corrected peakVal isMax (i :: rest) valley.
Proof.
  cbn [valleyWalk]. cbv zeta.
  assert (H := fun v => valleyWalk_bound corrected peakVal isMax rest v).
  destruct isMax.
  - destruct (Qgtb _ _); [apply Q.le_min_r |].
    eapply Qle_trans; [apply H | apply Q.le_min_r].
  - destruct (Qltb _ _); [apply Q.le_max_r |].
    eapply Qle_trans; [apply Q.le_max_r | apply H].
Qed.

(** X19.  Prominence is never negative, and at an interior index it is at
    least the amount by which the signal stands out from its two immediate
    neighbours: a strict local extremum always has positive prominence. *)
Theorem computeProminence_bounds (corrected : list Q) (peakIdx : nat) (isMax : bool) :
  0 <= computeProminence corrected peakIdx isMax
  /\ ((1 <= peakIdx)%nat -> (peakIdx + 1 < length corrected)%nat ->
      riseOverNeighbours corrected isMax peakIdx
      <= computeProminence corrected peakIdx isMax).
Proof.
  unfold computeProminence, riseOverNeighbours. cbv zeta. split.
  - assert (Hl := valleyWalk_bound corrected (at_ corrected peakIdx) isMax
                    (rev (seq 0 peakIdx)) (at_ corrected peakIdx)).
    assert (Hr := valleyWalk_bound corrected (at_ corrected peakIdx) isMax
                    (seq (peakIdx + 1) (length corrected - (peakIdx + 1)))
                    (at_ corrected peakIdx)).
    destruct isMax.
    + assert (H := Q.max_lub _ _ _ Hl Hr). lra.
    + assert (H := Q.min_glb _ _ _ Hl Hr). lra.
  - intros Hlo Hhi.
    destruct peakIdx as [|p]; [lia |].
    rewrite seq_S, rev_app_distr, Nat.add_0_l. cbn [rev app].
    destruct (length corrected - (S p + 1))%nat as [|len] eqn:Hlen; [lia |].
    cbn [seq].
    assert (Hl := valleyWalk_first corrected (at_ corrected (S p)) isMax p
                    (rev (seq 0 p)) (at_ corrected (S p))).
    assert (Hr := valleyWalk_first corrected (at_ corrected (S p)) isMax (S p + 1)
                    (seq (S (S p + 1)) len) (at_ corrected (S p))).
    replace (S p - 1)%nat with p by lia.
    destruct isMax.
    + assert (H : Qmax (valleyWalk corrected (at_ corrected (S p)) true
                          (p :: rev (seq 0 p)) (at_ corrected (S p)))
                       (valleyWalk corrected (at_ corrected (S p)) true
                          ((S p + 1)%nat :: seq (S (S p + 1)) len) (at_ corrected (S p)))
                  <= Qmax (at_ corrected p) (at_ corrected (S p + 1))).
      { apply Q.max_lub.
        - eapply Qle_trans; [exact Hl | apply Q.le_max_l].
        - eapply Qle_trans; [exact Hr | apply Q.le_max_r]. }
      lra.
    + assert (H : Qmin (at_ corrected p) (at_ corrected (S p + 1))
                  <= Qmin (valleyWalk corrected (at_ corrected (S p)) false
                             (p :: rev (seq 0 p)) (at_ corrected (S p)))
                          (valleyWalk corrected (at_ corrected (S p)) false
                             ((S p + 1)%nat :: seq (S (S p + 1)) len)
                             (at_ corrected (S p)))).
      { apply Q.min_glb.
        - eapply Qle_trans; [apply Q.le_min_l | exact Hl].
        - eapply Qle_trans; [apply Q.le_min_r | exact Hr]. }
      lra.
Qed.

Lemma boundary_test (corrected : list Q) (isMax : bool) (i : nat) :
  (if isMax then Qleb (at_ corrected i) 0 else Qgeb (at_ corrected i) 0) = true
  /\ backAtBaseline corrected isMax i
  \/ (if isMax then Qleb (at_ corrected i) 0 else Qgeb (at_ corrected i) 0) = false
     /\ insidePeak corrected isMax i.
Proof.
  unfold backAtBaseline, insidePeak, Qgeb. destruct isMax.
  - destruct (Qleb (at_ corrected i) 0) eqn:H.
    + left. split; [reflexivity |]. apply Qle_bool_iff. exact H.
    + right. split; [reflexivity |]. apply Qleb_false_iff. exact H.
  - destruct (Qle_bool 0 (at_ corrected i)) eqn:H.
    + left. split; [reflexivity |]. apply Qle_bool_iff. exact H.
    + right. split; [reflexivity |]. apply (Qleb_false_iff 0). exact H.
Qed.

(** The walk to the left of index [p]. *)
Lemma boundaryWalk_left (corrected : list Q) (isMax : bool) (p bound : nat) :
  let r := boundaryWalk corrected isMax (rev (seq 0 p)) bound in
  (p = 0%nat /\ r = bound
   \/ (r < p)%nat /\ (r = 0%nat \/ backAtBaseline corrected isMax r))
  /\ forall j, (r < j < p)%nat -> insidePeak corrected isMax j.
Proof.
  revert bound. induction p as [|p IH]; intros bound r.
  - split; [left; split; reflexivity | intros j Hj; lia].
  - subst r. rewrite seq_S, rev_app_distr. cbn [rev app Nat.add boundaryWalk].
    destruct (boundary_test corrected isMax p) as [[-> Hback] | [-> Hin]].
    + split; [right; split; [lia | right; exact Hback] | intros j Hj; lia].
    + destruct (IH p) as [[[-> Hr] | [Hlt Hedge]] Hall].
      * simpl in *. split; [right; split; [lia | left; reflexivity] | intros j Hj; lia].
      * split; [right; split; [lia | exact Hedge] |].
        intros j Hj. destruct (Nat.eq_dec j p) as [-> | Hne]; [exact Hin |].
        apply Hall. lia.
Qed.

(** The walk to the right, over [start, start + len). *)
Lemma boundaryWalk_right (corrected : list Q) (isMax : bool) (start len bound : nat) :
  let r := boundaryWalk corrected isMax (seq start len) bound in
  len = 0%nat /\ r = bound
  \/ (start <= r < start + len)%nat
     /\ (r = (start + len - 1)%nat \/ backAtBaseline corrected isMax r)
     /\ forall j, (start <= j < r)%nat -> insidePeak corrected isMax j.
Proof.
  revert start bound. induction len as [|len IH]; intros start bound r.
  - left. split; reflexivity.
  - right. subst r. cbn [seq boundaryWalk].
    destruct (boundary_test corrected isMax start) as [[-> Hback] | [-> Hin]].
    + split; [lia |]. split; [right; exact Hback | intros j Hj; lia].
    + destruct (IH (S start) start) as [[-> ->] | [Hrange [Hedge Hall]]].
      * simpl. split; [lia |]. split; [left; lia | intros j Hj; lia].
      * split; [lia |]. split.
        -- destruct Hedge as [-> | Hback]; [left; lia | right; exact Hback].
        -- intros j Hj. destruct (Nat.eq_dec j start) as [-> | Hne]; [exact Hin |].
           apply Hall. lia.
Qed.

Lemma findPeakBoundaries_shape (corrected : list Q) (peakIdx : nat) (isMax : bool) :
  (peakIdx < length corrected)%nat ->
  let '(startIndex, endIndex) := findPeakBoundaries corrected peakIdx isMax in
  (startIndex <= peakIdx <= endIndex)%nat
  /\ (endIndex < length corrected)%nat
  /\ (startIndex = 0%nat \/ backAtBaseline corrected isMax startIndex)
  /\ (endIndex = (length corrected - 1)%nat \/ backAtBaseline corrected isMax endIndex)
  /\ forall j, (startIndex < j < endIndex)%nat -> j <> peakIdx ->
               insidePeak corrected isMax j.
Proof.
  intros Hp. unfold findPeakBoundaries. cbv zeta.
  destruct (boundaryWalk_left corrected isMax peakIdx peakIdx) as [Hl Hlall].
  assert (Hr := boundaryWalk_right corrected isMax (peakIdx + 1)
                  (length corrected - (peakIdx + 1)) peakIdx).
  cbv zeta in Hl, Hlall, Hr.
  set (s := boundaryWalk corrected isMax (rev (seq 0 peakIdx)) peakIdx) in *.
  set (e := boundaryWalk corrected isMax
              (seq (peakIdx + 1) (length corrected - (peakIdx + 1))) peakIdx) in *.
  assert (Hs : (s <= peakIdx)%nat /\ (s = 0%nat \/ backAtBaseline corrected isMax s)).
  { destruct Hl as [[Hp0 Hs] | [Hlt Hedge]].
    - split; [lia | left; lia].
    - split; [lia | exact Hedge]. }
  assert (He : (peakIdx <= e < length corrected)%nat
               /\ (e = (length corrected - 1)%nat \/ backAtBaseline corrected isMax e)
               /\ forall j, (peakIdx < j < e)%nat -> insidePeak corrected isMax j).
  { destruct Hr as [[Hlen He] | [Hrange [Hedge Hall]]].
    - split; [lia |]. split; [left; lia | intros j Hj; lia].
    - split; [lia |]. split.
      + destruct Hedge as [He | Hback]; [left; lia | right; exact Hback].
      + intros j Hj. apply Hall. lia. }
  destruct Hs as [Hs1 Hs2]. destruct He as [He1 [He2 He3]].
  split; [lia |]. split; [lia |]. split; [exact Hs2 |]. split; [exact He2 |].
  intros j Hj Hne.
  destruct (Nat.lt_ge_cases j peakIdx); [apply Hlall | apply He3]; lia.
Qed.

(** X20.  The boundaries of a peak bracket its apex and stay inside the
    signal; each of them is either an end of the signal or an index at which
    the corrected signal is back at the baseline; and strictly between them
    the corrected signal stays on the peak's side of zero. *)
Theorem findPeakBoundaries_bracket_the_peak (corrected : list Q) (peakIdx : nat)
  (isMax : bool) (Hp : (peakIdx < length corrected)%nat) :
  let '(startIndex, endIndex) := findPeakBoundaries corrected peakIdx isMax in
  (startIndex <= peakIdx <= endIndex)%nat
  /\ (endIndex < length corrected)%nat
  /\ (startIndex = 0%nat \/ backAtBaseline corrected isMax startIndex)
  /\ (endIndex = (length corrected - 1)%nat \/ backAtBaseline corrected isMax endIndex)
  /\ forall j, (startIndex < j < endIndex)%nat -> j <> peakIdx ->
               insidePeak corrected isMax j.
Proof.
  exact (findPeakBoundaries_shape corrected peakIdx isMax Hp).
Qed.

End PeakShape.

Lemma computeProminence_bounds_witness :
  0 <= CVAnalysis.computeProminence [0; 1; 4; 2; 0] 2 true
  /\ riseOverNeighbours [0; 1; 4; 2; 0] true 2
     <= CVAnalysis.computeProminence [0; 1; 4; 2; 0] 2 true.
Proof.
  destruct (computeProminence_bounds [0; 1; 4; 2; 0] 2 true) as [H0 H1].
  split; [exact H0 |]. apply H1; simpl; lia.
Defined.

Lemma findPeakBoundaries_bracket_the_peak_witness :
  let corrected := [0; 1; 4; 2; 0; 3] in
  let '(startIndex, endIndex) := CVAnalysis.findPeakBoundaries corrected 2 true in
  (startIndex <= 2 <= endIndex)%nat
  /\ (endIndex < length corrected)%nat
  /\ (startIndex = 0%nat \/ backAtBaseline corrected true startIndex)
  /\ (endIndex = (length corrected - 1)%nat \/ backAtBaseline corrected true endIndex)
  /\ forall j, (startIndex < j < endIndex)%nat -> j <> 2%nat ->
               insidePeak corrected true j.
Proof.
  apply (findPeakBoundaries_bracket_the_peak [0; 1; 4; 2; 0; 3] 2 true).
  simpl. lia.
Defined.

(** ** Peak analyzer: merging and the reported peaks *)

Section ReportedPeaks.

Import CVAnalysis.

Lemma merge_loop_prefix (peaks : list Candidate) (minSeparation : Q)
  (suf result : list Candidate) (used : gset nat) :
  exists more,
    fst (fold_left (mergeStep peaks minSeparation) suf (result, used)) = result ++ more.
Proof.
  revert result used. induction suf as [|peak suf IH]; intros result used.
  - exists []. simpl. rewrite app_nil_r. reflexivity.
  - cbn [fold_left]. rewrite mergeStep_step.
    destruct (bool_decide (index peak ∈ used)); [apply IH |].
    destruct (IH (result ++ [snd (fold_left (absorb peak minSeparation) peaks (used, peak))])
                 (fst (fold_left (absorb peak minSeparation) peaks (used, peak))
                  ∪ {[ index (snd (fold_left (absorb peak minSeparation) peaks
                                      (used, peak))) ]})) as [more Hmore].
    rewrite Hmore, <- app_assoc. eexists. reflexivity.
Qed.

Lemma mergePeaks_separated (peaks : list Candidate) (minSeparation : Q) :
  Sorted byProminence peaks -> separated minSeparation (mergePeaks peaks minSeparation).
Proof.
  intros Hsorted.
  apply Sorted_StronglySorted in Hsorted; [| apply byProminence_transitive].
  unfold mergePeaks. destruct (length peaks <=? 1)%nat eqn:Hlen.
  - apply Nat.leb_le in Hlen.
    destruct peaks as [|a [|b rest]]; [| | simpl in Hlen; lia].
    + split; [constructor |]. intros a b Ha. apply elem_of_nil in Ha. destruct Ha.
    + split; [apply NoDup_singleton |].
      intros x y Hx Hy Hne.
      apply list_elem_of_singleton in Hx as ->.
      apply list_elem_of_singleton in Hy as ->. congruence.
  - apply (merge_loop_separated minSeparation peaks Hsorted peaks [] [] ∅).
    + reflexivity.
    + intros p Hp. apply elem_of_nil in Hp. destruct Hp.
    + intros r Hr. exact Hr.
    + intros q r _ _ Hr. apply elem_of_nil in Hr. destruct Hr.
    + split; [constructor |]. intros a b Ha. apply elem_of_nil in Ha. destruct Ha.
Qed.

Lemma mergePeaks_head (peaks : list Candidate) (minSeparation : Q) :
  Sorted byProminence peaks -> head (mergePeaks peaks minSeparation) = head peaks.
Proof.
  intros Hsorted.
  apply Sorted_StronglySorted in Hsorted; [| apply byProminence_transitive].
  unfold mergePeaks. destruct (length peaks <=? 1)%nat; [reflexivity |].
  destruct peaks as [|p rest]; [reflexivity |].
  cbn [fold_left]. rewrite mergeStep_step.
  rewrite bool_decide_eq_false_2 by (apply not_elem_of_empty).
  destruct (absorb_keeps_peak minSeparation p (p :: rest) ∅) as [used' [Hfold _]].
  { intros o Ho _ _. apply elem_of_cons in Ho as [-> | Ho]; [apply Qle_refl |].
    inversion Hsorted as [| ? ? _ Hall]; subst.
    apply (proj1 (List.Forall_forall _ _) Hall). apply list_elem_of_In. exact Ho. }
  rewrite Hfold. cbn [fst snd app].
  destruct (merge_loop_prefix (p :: rest) minSeparation rest [p] (used' ∪ {[ index p ]}))
    as [more ->].
  reflexivity.
Qed.

(** X21.  On candidates sorted by prominence, as [findCVPeaks] passes them,
    [mergePeaks] returns candidates of its input, with distinct apex indices
    no two of which are within [minSeparation] of each other, and the most
    prominent candidate comes first. *)
Theorem mergePeaks_separates_and_keeps_best (peaks : list Candidate) (minSeparation : Q)
  (Hsorted : Sorted byProminence peaks) :
  separated minSeparation (mergePeaks peaks minSeparation)
  /\ (forall c, In c (mergePeaks peaks minSeparation) -> In c peaks)
  /\ head (mergePeaks peaks minSeparation) = head peaks.
Proof.
  split; [apply mergePeaks_separated; exact Hsorted |].
  split; [apply mergePeaks_from | apply mergePeaks_head; exact Hsorted].
Qed.

Lemma peakRecord_fields (smoothed baseline : list DataPoint) (corrected : list Q)
  (isOxidation : bool) (peak : Candidate) (r : CVPeakResult) :
  peakRecord smoothed baseline corrected isOxidation peak = Ok r ->
  peak_index r = index peak
  /\ height r = Qabs (at_ corrected (index peak))
  /\ peak_type r = (if isOxidation then oxidation else reduction)
  /\ (startIndex r, endIndex r) = findPeakBoundaries corrected (index peak) isOxidation
  /\ interpolatePeakPotential smoothed corrected (index peak) = Ok (peak_potential r)
  /\ 0 <= CVAnalysis.area r.
Proof.
  unfold peakRecord.
  destruct (findPeakBoundaries corrected (index peak) isOxidation) as [s e].
  destruct (interpolatePeakPotential smoothed corrected (index peak)); simpl; [| discriminate].
  destruct (Baseline.readPoint smoothed (Z.of_nat (index peak))); simpl; [| discriminate].
  destruct (Baseline.readPoint smoothed (Z.of_nat s)); simpl; [| discriminate].
  destruct (Baseline.readPoint smoothed (Z.of_nat e)); simpl; [| discriminate].
  intros [= <-]. cbn [peak_index height peak_type startIndex endIndex peak_potential
                       CVAnalysis.area].
  repeat (split; [reflexivity |]).
  unfold integratePeakArea. cbv zeta.
  destruct (_ <? 2)%nat; [apply Qle_refl | apply Qabs_nonneg].
Qed.

Lemma peakRecords_indices (smoothed baseline : list DataPoint) (corrected : list Q)
  (isOxidation : bool) (merged : list Candidate) (rs : list CVPeakResult) :
  peakRecords smoothed baseline corrected isOxidation merged = Ok rs ->
  map peak_index rs = map index merged.
Proof.
  revert rs. induction merged as [|peak merged IH]; intros rs; simpl.
  - intros [= <-]. reflexivity.
  - destruct (peakRecord smoothed baseline corrected isOxidation peak) as [r0 |] eqn:Hr0;
      simpl; [| discriminate].
    destruct (peakRecords smoothed baseline corrected isOxidation merged) as [rs0 |];
      simpl; [| discriminate].
    intros [= <-]. simpl. rewrite (IH rs0 eq_refl).
    apply peakRecord_fields in Hr0 as [-> _]. reflexivity.
Qed.

(** The two ways [findCVPeaks] returns: no peak at all, or the records of
    the merged candidates, sorted by potential.  The candidates are strict
    local extrema of the peak's sign and reach [mergePeaks] sorted by
    prominence. *)
Lemma findCVPeaks_cases (smoothed baseline : list DataPoint) (corrected : list Q)
  (direction : ScanDirection) (threshold : Q) (found : list CVPeakResult) :
  findCVPeaks smoothed baseline corrected direction threshold = Ok found ->
  found = []
  \/ exists (candidates : list Candidate) (rs : list CVPeakResult),
       (5 <= length corrected)%nat
       /\ Sorted byProminence candidates
       /\ (forall c, In c candidates ->
             (1 <= index c)%nat /\ (index c + 1 < length corrected)%nat
             /\ strictExtremum corrected (isForward direction) (index c))
       /\ peakRecords smoothed baseline corrected (isForward direction)
            (mergePeaks candidates
               (inject_Z (Z.max 5 (floorScale (length corrected) 0.02)))) = Ok rs
       /\ found = sortBy (fun a b => if isForward direction
                                     then peak_potential a - peak_potential b
                                     else peak_potential b - peak_potential a) rs.
Proof.
  unfold findCVPeaks.
  destruct (length corrected <? 5)%nat eqn:Hn; [intros [= <-]; left; reflexivity |].
  apply Nat.ltb_ge in Hn.
  cbv zeta.
  match goal with
  | |- context [(length ?c =? 0)%nat] => destruct (length c =? 0)%nat
  end; [intros [= <-]; left; reflexivity |].
  match goal with
  | |- context [peakRecords ?a ?b ?c ?d (mergePeaks ?w ?m)] =>
      destruct (peakRecords a b c d (mergePeaks w m)) as [rs |] eqn:Hrs;
      simpl; [| discriminate];
      intros [= <-]; right; exists w, rs
  end.
  split; [exact Hn |]. split; [apply sortBy_byProminence |].
  split; [| split; [exact Hrs | reflexivity]].
  intros c Hc.
  apply sortBy_In, filter_In in Hc as [Hc _].
  apply in_map_iff in Hc as [[i mag] [<- Hc]]. cbn [index fst].
  apply in_flat_map in Hc as [j [Hj Hc]].
  apply in_seq in Hj.
  unfold strictExtremum.
  destruct direction; cbn [isForward] in *.
  - destruct (Qgtb (at_ corrected j) (at_ corrected (j - 1))) eqn:H1; [| destruct Hc].
    destruct (Qgtb (at_ corrected j) (at_ corrected (j + 1))) eqn:H2; [| destruct Hc].
    destruct (Qgtb (at_ corrected j) 0) eqn:H3; [| destruct Hc].
    destruct Hc as [[= <- _] | []].
    apply Qltb_true_iff in H1, H2, H3.
    repeat split; try lia; assumption.
  - destruct (Qltb (at_ corrected j) (at_ corrected (j - 1))) eqn:H1; [| destruct Hc].
    destruct (Qltb (at_ corrected j) (at_ corrected (j + 1))) eqn:H2; [| destruct Hc].
    destruct (Qltb (at_ corrected j) 0) eqn:H3; [| destruct Hc].
    destruct Hc as [[= <- _] | []].
    apply Qltb_true_iff in H1, H2, H3.
    repeat split; try lia; assumption.
Qed.

Lemma findCVPeaks_peak_shape (smoothed baseline : list DataPoint)
  (corrected : list Q) (direction : ScanDirection) (threshold : Q)
  (found : list CVPeakResult) (pk : CVPeakResult)
  (Hfound : findCVPeaks smoothed baseline corrected direction threshold = Ok found)
  (Hin : In pk found) :
  (1 <= peak_index pk)%nat /\ (peak_index pk + 1 < length corrected)%nat
  /\ strictExtremum corrected (isForward direction) (peak_index pk)
  /\ height pk = Qabs (at_ corrected (peak_index pk))
  /\ 0 < height pk
  /\ peak_type pk = (if isForward direction then oxidation else reduction)
  /\ (startIndex pk <= peak_index pk <= endIndex pk)%nat
  /\ (endIndex pk < length corrected)%nat
  /\ 0 <= CVAnalysis.area pk.
Proof.
  destruct (findCVPeaks_cases _ _ _ _ _ _ Hfound)
    as [-> | [candidates [rs [Hn [_ [Hcand [Hrs ->]]]]]]]; [destruct Hin |].
  apply sortBy_In in Hin.
  destruct (peakRecords_In _ _ _ _ _ _ _ Hrs Hin) as [peak [Hpeak Hrec]].
  apply mergePeaks_from in Hpeak.
  destruct (Hcand peak Hpeak) as [Hlo [Hhi Hext]].
  destruct (peakRecord_fields _ _ _ _ _ _ Hrec) as [Hidx [Hh [Hty [Hb [_ Harea]]]]].
  rewrite Hidx.
  assert (Hshape := findPeakBoundaries_shape corrected (index peak) (isForward direction)
                      ltac:(lia)).
  rewrite <- Hb in Hshape. destruct Hshape as [Hbr [Hend _]].
  repeat (split; [first [assumption | lia] |]).
  split.
  { rewrite Hh. unfold strictExtremum in Hext.
    destruct (isForward direction), Hext as [_ [_ Hsign]].
    - rewrite Qabs_pos; lra.
    - rewrite Qabs_neg; lra. }
  repeat (split; [first [assumption | lia] |]). exact Harea.
Qed.

(** X22.  Every peak [findCVPeaks] reports sits at a strict local extremum
    of the corrected signal, of the sign of the scan direction and away
    from both ends; its height is the absolute corrected value there and is
    positive, its type follows the direction, its boundaries bracket the
    apex inside the signal, and its area is not negative. *)
Theorem findCVPeaks_reports_strict_extrema (smoothed baseline : list DataPoint)
  (corrected : list Q) (direction : ScanDirection) (threshold : Q)
  (found : list CVPeakResult) (pk : CVPeakResult)
  (Hfound : findCVPeaks smoothed baseline corrected direction threshold = Ok found)
  (Hin : In pk found) :
  (1 <= peak_index pk)%nat /\ (peak_index pk + 1 < length corrected)%nat
  /\ strictExtremum corrected (isForward direction) (peak_index pk)
  /\ height pk = Qabs (at_ corrected (peak_index pk))
  /\ 0 < height pk
  /\ peak_type pk = (if isForward direction then oxidation else reduction)
  /\ (startIndex pk <= peak_index pk <= endIndex pk)%nat
  /\ (endIndex pk < length corrected)%nat
  /\ 0 <= CVAnalysis.area pk.
Proof.
  exact (findCVPeaks_peak_shape smoothed baseline corrected direction threshold
           found pk Hfound Hin).
Qed.

Lemma sortInsert_sorted {A} (cmp : A -> A -> Q) (x : A) (l : list A) :
  (forall a b, 0 < cmp a b -> cmp b a <= 0) ->
  Sorted (fun a b => cmp a b <= 0) l ->
  Sorted (fun a b => cmp a b <= 0) (sortInsert cmp x l).
Proof.
  intros Hflip. induction l as [|y l IH]; intros Hl; simpl.
  - repeat constructor.
  - destruct (Qleb (cmp x y) 0) eqn:Hcmp.
    + apply Qle_bool_iff in Hcmp. constructor; [exact Hl |]. constructor. exact Hcmp.
    + apply Qleb_false_iff in Hcmp. apply Hflip in Hcmp.
      inversion Hl as [| ? ? Hl' Hhd]; subst.
      constructor; [apply IH; exact Hl' |].
      destruct l as [|z l]; simpl.
      * constructor. exact Hcmp.
      * destruct (Qleb (cmp x z) 0); constructor;
          [exact Hcmp | inversion Hhd; assumption].
Qed.

Lemma sortBy_sorted {A} (cmp : A -> A -> Q) (l : list A) :
  (forall a b, 0 < cmp a b -> cmp b a <= 0) ->
  Sorted (fun a b => cmp a b <= 0) (sortBy cmp l).
Proof.
  intros Hflip. unfold sortBy. induction l as [|x l IH]; simpl.
  - constructor.
  - apply sortInsert_sorted; assumption.
Qed.

Lemma Sorted_weaken {A} (R R' : A -> A -> Prop) (l : list A) :
  (forall a b, R a b -> R' a b) -> Sorted R l -> Sorted R' l.
Proof.
  intros Himp Hl. induction Hl as [| a l Hl IH Hhd]; constructor; [exact IH |].
  destruct Hhd; constructor. apply Himp. assumption.
Qed.

Lemma findCVPeaks_byPotential (smoothed baseline : list DataPoint)
  (corrected : list Q) (direction : ScanDirection) (threshold : Q)
  (found : list CVPeakResult)
  (Hfound : findCVPeaks smoothed baseline corrected direction threshold = Ok found) :
  Sorted (byPotential direction) found.
Proof.
  destruct (findCVPeaks_cases _ _ _ _ _ _ Hfound)
    as [-> | [candidates [rs [_ [_ [_ [_ ->]]]]]]]; [constructor |].
  eapply Sorted_weaken;
    [| apply sortBy_sorted; intros a b; destruct (isForward direction); lra].
  intros a b. unfold byPotential. destruct (isForward direction); lra.
Qed.

(** X23.  [findCVPeaks] reports its peaks ordered by interpolated
    potential: ascending on a forward scan, descending on a reverse one. *)
Theorem findCVPeaks_sorted_by_potential (smoothed baseline : list DataPoint)
  (corrected : list Q) (direction : ScanDirection) (threshold : Q)
  (found : list CVPeakResult)
  (Hfound : findCVPeaks smoothed baseline corrected direction threshold = Ok found) :
  Sorted (byPotential direction) found.
Proof.
  exact (findCVPeaks_byPotential smoothed baseline corrected direction threshold
           found Hfound).
Qed.

Lemma sortInsert_Permutation {A} (cmp : A -> A -> Q) (x : A) (l : list A) :
  Permutation (sortInsert cmp x l) (x :: l).
Proof.
  induction l as [|y l IH]; simpl; [reflexivity |].
  destruct (Qleb (cmp x y) 0); [reflexivity |].
  rewrite IH. apply perm_swap.
Qed.

Lemma sortBy_Permutation {A} (cmp : A -> A -> Q) (l : list A) :
  Permutation (sortBy cmp l) l.
Proof.
  unfold sortBy. induction l as [|x l IH]; simpl; [reflexivity |].
  rewrite sortInsert_Permutation, IH. reflexivity.
Qed.

(** X24.  No two peaks reported by [findCVPeaks] are closer than the
    merging distance: peaks at different positions of the result have apex
    indices at least [max(5, floor(n * 0.02))] apart. *)
Theorem findCVPeaks_peaks_are_apart (smoothed baseline : list DataPoint)
  (corrected : list Q) (direction : ScanDirection) (threshold : Q)
  (found : list CVPeakResult) (i j : nat) (p q : CVPeakResult)
  (Hfound : findCVPeaks smoothed baseline corrected direction threshold = Ok found)
  (Hij : i <> j) (Hp : found !! i = Some p) (Hq : found !! j = Some q) :
  (Z.max 5 (floorScale (length corrected) 0.02)
   <= Z.abs (Z.of_nat (peak_index p) - Z.of_nat (peak_index q)))%Z.
Proof.
  destruct (findCVPeaks_cases _ _ _ _ _ _ Hfound)
    as [-> | [candidates [rs [_ [Hsorted [_ [Hrs ->]]]]]]]; [discriminate |].
  set (cmp := fun a b : CVPeakResult => _) in *.
  set (minSeparation := inject_Z (Z.max 5 (floorScale (length corrected) 0.02))) in *.
  destruct (mergePeaks_separated candidates minSeparation Hsorted) as [Hnodup Hfar].
  assert (Hidx := peakRecords_indices _ _ _ _ _ _ Hrs).
  assert (Hnd : NoDup (map peak_index (sortBy cmp rs))).
  { rewrite (Permutation_map peak_index (sortBy_Permutation cmp rs)), Hidx.
    exact Hnodup. }
  assert (Hne : peak_index p <> peak_index q).
  { intros Heq. apply Hij.
    apply (NoDup_lookup _ i j (peak_index p) Hnd).
    - rewrite list_lookup_fmap, Hp. reflexivity.
    - rewrite list_lookup_fmap, Hq, Heq. reflexivity. }
  assert (Hfrom : forall r, sortBy cmp rs !! i = Some r \/ sortBy cmp rs !! j = Some r ->
            exists c, c ∈ mergePeaks candidates minSeparation /\ index c = peak_index r).
  { intros r Hr.
    assert (Hin : In r rs).
    { apply (sortBy_In cmp). apply list_elem_of_In.
      destruct Hr as [Hr | Hr]; eapply list_elem_of_lookup_2; exact Hr. }
    destruct (peakRecords_In _ _ _ _ _ _ _ Hrs Hin) as [c [Hc Hrec]].
    exists c. split; [apply list_elem_of_In; exact Hc |].
    apply peakRecord_fields in Hrec as [-> _]. reflexivity. }
  destruct (Hfrom p (or_introl Hp)) as [a [Ha Hia]].
  destruct (Hfrom q (or_intror Hq)) as [b [Hb Hib]].
  assert (Hnear := Hfar a b Ha Hb ltac:(congruence)).
  unfold near in Hnear. apply Qltb_false_iff in Hnear.
  unfold minSeparation in Hnear. rewrite <- Zle_Qle in Hnear.
  rewrite <- Hia, <- Hib. exact Hnear.
Qed.




End ReportedPeaks.

Lemma mergePeaks_separates_and_keeps_best_witness :
  let peaks := [ CVAnalysis.mkCandidate 10 5 5; CVAnalysis.mkCandidate 12 4 4;
                 CVAnalysis.mkCandidate 30 3 3; CVAnalysis.mkCandidate 13 2 2 ] in
  separated 5 (CVAnalysis.mergePeaks peaks 5)
  /\ (forall c, In c (CVAnalysis.mergePeaks peaks 5) -> In c peaks)
  /\ head (CVAnalysis.mergePeaks peaks 5) = head peaks.
Proof.
  apply (mergePeaks_separates_and_keeps_best
           [ CVAnalysis.mkCandidate 10 5 5; CVAnalysis.mkCandidate 12 4 4;
             CVAnalysis.mkCandidate 30 3 3; CVAnalysis.mkCandidate 13 2 2 ] 5).
  repeat constructor; unfold byProminence; simpl; discriminate.
Defined.

Lemma findCVPeaks_reports_strict_extrema_witness :
  exists found pk,
    CVAnalysis.findCVPeaks twoPeakScan (zeroBaseline twoPeakScan)
                           (map current twoPeakScan) forward 0.05 = Ok found
    /\ In pk found
    /\ (1 <= CVAnalysis.peak_index pk)%nat
    /\ (CVAnalysis.peak_index pk + 1 < length (map current twoPeakScan))%nat
    /\ strictExtremum (map current twoPeakScan) (isForward forward)
                      (CVAnalysis.peak_index pk)
    /\ CVAnalysis.height pk
       = Qabs (at_ (map current twoPeakScan) (CVAnalysis.peak_index pk))
    /\ 0 < CVAnalysis.height pk
    /\ CVAnalysis.peak_type pk
       = (if isForward forward then CVAnalysis.oxidation else CVAnalysis.reduction)
    /\ (CVAnalysis.startIndex pk <= CVAnalysis.peak_index pk <= CVAnalysis.endIndex pk)%nat
    /\ (CVAnalysis.endIndex pk < length (map current twoPeakScan))%nat
    /\ 0 <= CVAnalysis.area pk.
Proof.
  eexists. eexists.
  split; [vm_compute; reflexivity |].
  split; [left; reflexivity |].
  eapply (findCVPeaks_reports_strict_extrema twoPeakScan (zeroBaseline twoPeakScan)
            (map current twoPeakScan) forward 0.05).
  - vm_compute. reflexivity.
  - left. reflexivity.
Defined.

Lemma findCVPeaks_sorted_by_potential_witness :
  exists found,
    CVAnalysis.findCVPeaks twoPeakScan (zeroBaseline twoPeakScan)
                           (map current twoPeakScan) forward 0.05 = Ok found
    /\ length found = 2%nat
    /\ Sorted (byPotential forward) found.
Proof.
  eexists.
  split; [vm_compute; reflexivity |].
  split; [reflexivity |].
  apply (findCVPeaks_sorted_by_potential twoPeakScan (zeroBaseline twoPeakScan)
           (map current twoPeakScan) forward 0.05).
  vm_compute. reflexivity.
Defined.

Lemma findCVPeaks_peaks_are_apart_witness :
  exists found p q,
    CVAnalysis.findCVPeaks twoPeakScan (zeroBaseline twoPeakScan)
                           (map current twoPeakScan) forward 0.05 = Ok found
    /\ found !! 0%nat = Some p /\ found !! 1%nat = Some q
    /\ (Z.max 5 (floorScale (length (map current twoPeakScan)) 0.02)
        <= Z.abs (Z.of_nat (CVAnalysis.peak_index p)
                  - Z.of_nat (CVAnalysis.peak_index q)))%Z.
Proof.
  eexists. eexists. eexists.
  split; [vm_compute; reflexivity |].
  split; [reflexivity |]. split; [reflexivity |].
  eapply (findCVPeaks_peaks_are_apart twoPeakScan (zeroBaseline twoPeakScan)
            (map current twoPeakScan) forward 0.05 _ 0 1).
  - vm_compute. reflexivity.
  - discriminate.
  - reflexivity.
  - reflexivity.
Defined.


(** ** Integration engine: exactness and orientation *)


Section IntegrationExactness.

Import Integration.













End IntegrationExactness.



(** ** App: pair parameters and iR drop *)

Section PairParameters.

Import CVAnalysis.

Variable Math_sqrt : Q -> Q.
Variable validateSmoothingQuality : list Q -> list Q -> list string.
Variable validateDerivativeQuality : list Q -> Q -> list string.

#[local] Instance byPotential_transitive (direction : ScanDirection) :
  Transitive (byPotential direction).
Proof.
  intros a b c. unfold byPotential. destruct (isForward direction); intros; lra.
Qed.

Lemma analyzeCVScan_peaks_sorted (scanData : list DataPoint) (config : AnalysisConfig)
  (direction : ScanDirection) (res : CVScanResult) :
  analyzeCVScan Math_sqrt validateSmoothingQuality validateDerivativeQuality
                scanData config direction = Ok res ->
  Sorted (byPotential direction) (peaks res)
  /\ Forall (fun p => 0 < height p) (peaks res).
Proof.
  intros Hres.
  destruct scanData as [|d0 rest] eqn:Edata.
  { injection Hres as <-. split; constructor. }
  rewrite <- Edata in *.
  assert (Hdata : scanData <> []) by (rewrite Edata; discriminate).
  destruct (analyzeCVScan_fields Math_sqrt validateSmoothingQuality
              validateDerivativeQuality scanData config direction res Hdata Hres)
    as [_ [_ [_ [Hpeaks _]]]].
  split.
  - eapply findCVPeaks_byPotential. exact Hpeaks.
  - apply List.Forall_forall. intros p Hp.
    destruct (findCVPeaks_peak_shape _ _ _ _ _ _ _ Hpeaks Hp) as [_ [_ [_ [_ [Hh _]]]]].
    exact Hh.
Qed.

(** X29.  The pair parameters of a cycle.  [cvPairParams] is null exactly
    when one of the two analysed scans has no peak.  Otherwise it pairs the
    first peak of each list, which [findCVPeaks] sorted by potential: the
    anodic peak of lowest potential with the cathodic peak of highest
    potential, so that the reported peak separation is the smallest over all
    pairs of an anodic and a cathodic peak; the half-wave potential is the
    mean of the two potentials; and the current ratio is positive. *)
Theorem cvPairParams_pairs_the_closest_peaks (forwardData reverseData : list DataPoint)
  (config : AnalysisConfig) (fwd rev : CVScanResult)
  (Hfwd : analyzeCVScan Math_sqrt validateSmoothingQuality validateDerivativeQuality
                        forwardData config forward = Ok fwd)
  (Hrev : analyzeCVScan Math_sqrt validateSmoothingQuality validateDerivativeQuality
                        reverseData config reverse = Ok rev) :
  (App.cvPairParams (peaks fwd) (peaks rev) = None <-> peaks fwd = [] \/ peaks rev = [])
  /\ forall params,
       App.cvPairParams (peaks fwd) (peaks rev) = Some params ->
       (forall p q, In p (peaks fwd) -> In q (peaks rev) ->
                    App.deltaEp params <= peak_potential p - peak_potential q)
       /\ (exists p q, head (peaks fwd) = Some p /\ head (peaks rev) = Some q
                       /\ App.deltaEp params = peak_potential p - peak_potential q
                       /\ App.halfWavePotential params
                          = (peak_potential p + peak_potential q) / 2)
       /\ 0 < App.peakCurrentRatio params.
Proof.
  destruct (analyzeCVScan_peaks_sorted _ _ _ _ Hfwd) as [Hsf Hhf].
  destruct (analyzeCVScan_peaks_sorted _ _ _ _ Hrev) as [Hsr Hhr].
  apply Sorted_StronglySorted in Hsf; [| apply byPotential_transitive].
  apply Sorted_StronglySorted in Hsr; [| apply byPotential_transitive].
  unfold App.cvPairParams.
  destruct (peaks fwd) as [|f fs]; [split; [tauto | discriminate] |].
  destruct (peaks rev) as [|r rs]; [split; [tauto | discriminate] |].
  cbn [length Nat.eqb orb nth_error]. cbv zeta. split.
  - split; [discriminate | intros [H | H]; discriminate].
  - intros params [= <-]. cbn [App.deltaEp App.halfWavePotential App.peakCurrentRatio].
    inversion Hsf as [| ? ? _ Hf]; subst. inversion Hsr as [| ? ? _ Hr]; subst.
    inversion Hhf as [| ? ? Hf0 _]; subst. inversion Hhr as [| ? ? Hr0 _]; subst.
    split; [| split].
    + intros p q Hp Hq.
      assert (Hfp : peak_potential f <= peak_potential p).
      { destruct Hp as [<- | Hp]; [apply Qle_refl |].
        apply (proj1 (List.Forall_forall _ _) Hf p Hp). }
      assert (Hrq : peak_potential q <= peak_potential r).
      { destruct Hq as [<- | Hq]; [apply Qle_refl |].
        apply (proj1 (List.Forall_forall _ _) Hr q Hq). }
      lra.
    + exists f, r. repeat split; reflexivity.
    + unfold Qgtb. rewrite (proj2 (Qltb_true_iff 0 (height r)) Hr0).
      apply Qlt_shift_div_l; [exact Hr0 | lra].
Qed.

End PairParameters.

Section IRDropProperties.




End IRDropProperties.

Lemma cvPairParams_pairs_the_closest_peaks_witness :
  exists fwd rev,
    CVAnalysis.analyzeCVScan (fun v => v) (fun _ _ => []) (fun _ _ => [])
                             twoPeakScan endpointConfig forward = Ok fwd
    /\ CVAnalysis.analyzeCVScan (fun v => v) (fun _ _ => []) (fun _ _ => [])
                                returnScan endpointConfig reverse = Ok rev
    /\ length (CVAnalysis.peaks fwd) = 2%nat /\ length (CVAnalysis.peaks rev) = 1%nat
    /\ (App.cvPairParams (CVAnalysis.peaks fwd) (CVAnalysis.peaks rev) = None
        <-> CVAnalysis.peaks fwd = [] \/ CVAnalysis.peaks rev = [])
    /\ forall params,
         App.cvPairParams (CVAnalysis.peaks fwd) (CVAnalysis.peaks rev) = Some params ->
         (forall p q, In p (CVAnalysis.peaks fwd) -> In q (CVAnalysis.peaks rev) ->
                      App.deltaEp params
                      <= CVAnalysis.peak_potential p - CVAnalysis.peak_potential q)
         /\ (exists p q, head (CVAnalysis.peaks fwd) = Some p
                         /\ head (CVAnalysis.peaks rev) = Some q
                         /\ App.deltaEp params
                            = CVAnalysis.peak_potential p - CVAnalysis.peak_potential q
                         /\ App.halfWavePotential params
                            = (CVAnalysis.peak_potential p + CVAnalysis.peak_potential q) / 2)
         /\ 0 < App.peakCurrentRatio params.
Proof.
  eexists. eexists.
  split; [vm_compute; reflexivity |].
  split; [vm_compute; reflexivity |].
  split; [reflexivity |]. split; [reflexivity |].
  eapply (cvPairParams_pairs_the_closest_peaks (fun v => v) (fun _ _ => []) (fun _ _ => [])
            twoPeakScan returnScan endpointConfig).
  - vm_compute. reflexivity.
  - vm_compute. reflexivity.
Defined.

